(** * BlueBus bootloader: serial transport, packet codec and flash engine

    A shallow embedding of [firmware/bootloader/lib/uart.c] and
    [firmware/bootloader/lib/protocol.c], and the properties of the
    bootloader specification stated and proved over it.

    Conventions.
    - C integers are [Z]; every place where the source stores a value in a
      fixed-width variable is written out with [to_uint8], [to_uint16] or
      [to_uint32].
    - The headers ([uart.h], [protocol.h], the memory map) are missing.
      Their constants are collected in the class [Header] and every
      definition is parametric in it.
    - Hardware registers are inputs and outputs of the model: the receive
      side is a list of pending register snapshots, the transmit side is the
      list of bytes stored into the transmit register. *)

From stdpp Require Import base numbers option list gmap.

Local Open Scope Z_scope.

(** ** Fixed-width integers *)

Definition to_uint8 (z : Z) : Z := z `mod` 256.
Definition to_uint16 (z : Z) : Z := z `mod` 65536.
Definition to_uint32 (z : Z) : Z := z `mod` 4294967296.

Definition is_byte (z : Z) : Prop := 0 ≤ z < 256.

(** ** Constants of the missing headers *)

Class Header := {
  UART_RX_QUEUE_SIZE : Z;
  PROTOCOL_CONTROL_PACKET_SIZE : Z;
  PROTOCOL_DATA_INDEX_BEGIN : Z;
  PROTOCOL_CMD_WRITE_DATA_RESPONSE_OK : Z;
  PROTOCOL_CMD_WRITE_DATA_RESPONSE_ERR : Z;
  PROTOCOL_CMD_WRITE_SN_RESPONSE_OK : Z;
  PROTOCOL_CMD_WRITE_SN_RESPONSE_ERR : Z;
  BOOTLOADER_BOOTLOADER_START : Z;
  BOOTLOADER_APPLICATION_START : Z;
  BOOTLOADER_APPLICATION_END : Z;
  _FLASH_ROW : Z;
  CONFIG_SN_MSB : Z;
  CONFIG_SN_LSB : Z
}.

(** The three packet states of [protocol.h]. *)
Inductive PacketStatus :=
  | PROTOCOL_PACKET_STATUS_BAD
  | PROTOCOL_PACKET_STATUS_OK
  | PROTOCOL_PACKET_STATUS_INCOMPLETE.

(** ** C arrays *)

(** An array read [a[i]]; the default stands for whatever lies outside. *)
Definition arr_get (a : list Z) (i : Z) : Z := default 0 (a !! Z.to_nat i).

(** An array store [a[i] = v] inside the array. *)
Definition arr_set (a : list Z) (i : Z) (v : Z) : list Z := <[Z.to_nat i := v]> a.

(** A bounds-checked store, for arrays whose size the function itself
    chooses: [None] is an access outside the array. *)
Definition arr_store (a : list Z) (i : Z) (v : Z) : option (list Z) :=
  if decide (0 ≤ i < Z.of_nat (length a)) then Some (arr_set a i v) else None.

(** A bounds-checked read. *)
Definition arr_load (a : list Z) (i : Z) : option Z :=
  if decide (0 ≤ i) then a !! Z.to_nat i else None.

(** ** uart.c *)

(** The receive queue and its bookkeeping. The cursors and the size are
    taken to be of a type that holds [UART_RX_QUEUE_SIZE + 1], the value
    the source compares [rxQueueSize] with. *)
Record UART_t := mkUART {
  rxQueue : list Z;
  rxQueueSize : Z;
  rxQueueWriteCursor : Z;
  rxQueueReadCursor : Z;
  rxLastTimestamp : Z;
  (* every byte stored into the transmit register, oldest first *)
  uxtxreg : list Z
}.

(** The receiver as one pass of the loop of [UARTReadData] finds it: the
    status register, the byte at the head of the hardware receive buffer,
    and the timer. *)
Record RxPending := mkRx {
  rx_uxsta : Z;
  rx_uxrxreg : Z;
  rx_millis : Z
}.

(** What happens to the transport: the receive path stores a pending
    byte, or the consumer takes the next one. *)
Inductive QueueOp :=
  | Push (p : RxPending)
  | Pop.

Section Uart.
Context `{Header}.

Definition UARTGetNextByte (uart : UART_t) : Z * UART_t :=
  let data := arr_get (rxQueue uart) (rxQueueReadCursor uart) in
  let queue := arr_set (rxQueue uart) (rxQueueReadCursor uart) 0 in
  let cursor := rxQueueReadCursor uart + 1 in
  let cursor := if UART_RX_QUEUE_SIZE <=? cursor then 0 else cursor in
  let size := if 0 <? rxQueueSize uart then rxQueueSize uart - 1
              else rxQueueSize uart in
  (data, mkUART queue size (rxQueueWriteCursor uart) cursor
                (rxLastTimestamp uart) (uxtxreg uart)).

(** The loop of [UARTGetOffsetByte]; [cursor] is a [uint8_t] local. *)
Fixpoint offset_cursor (cursor : Z) (offset : nat) : Z :=
  match offset with
  | O => cursor
  | S offset' =>
      let cursor := to_uint8 (cursor + 1) in
      let cursor := if UART_RX_QUEUE_SIZE <=? cursor then 0 else cursor in
      offset_cursor cursor offset'
  end.

Definition UARTGetOffsetByte (uart : UART_t) (offset : Z) : Z :=
  let cursor := to_uint8 (rxQueueReadCursor uart) in
  arr_get (rxQueue uart) (offset_cursor cursor (Z.to_nat (to_uint8 offset))).

(** One iteration of the loop of [UARTReadData]. Clearing the overflow flag
    only touches the status register. *)
Definition UARTReadByte (uart : UART_t) (p : RxPending) : UART_t :=
  let hasErr := negb (Z.land (rx_uxsta p) 14 =? 0) in
  let byte := to_uint8 (rx_uxrxreg p) in
  if negb (rxQueueSize uart =? UART_RX_QUEUE_SIZE + 1) && negb hasErr then
    let cursor := if rxQueueWriteCursor uart =? UART_RX_QUEUE_SIZE then 0
                  else rxQueueWriteCursor uart in
    mkUART (arr_set (rxQueue uart) cursor byte) (rxQueueSize uart + 1)
           (cursor + 1) (rxQueueReadCursor uart) (rx_millis p) (uxtxreg uart)
  else uart.

(** [UARTReadData]: [pending] is what the receiver shows at each test of
    the loop, the status register, the byte at the head of its buffer and
    the timer. The loop runs while the data-available bit, bit 0 of the
    status, reads 1: it ends at the first entry where the bit is clear,
    and when nothing is pending any more. *)
Fixpoint UARTReadData (uart : UART_t) (pending : list RxPending) : UART_t :=
  match pending with
  | [] => uart
  | p :: pending' =>
      if Z.land (rx_uxsta p) 1 =? 1
      then UARTReadData (UARTReadByte uart p) pending'
      else uart
  end.

Definition UARTResetRxQueue (uart : UART_t) : UART_t :=
  mkUART (rxQueue uart) 0 0 0 (rxLastTimestamp uart) (uxtxreg uart).

(** [UARTSendData]: [length] is a [uint8_t]; the wait for the transmit
    buffer is left to the hardware. *)
Definition UARTSendData (uart : UART_t) (data : list Z) (length : Z) : UART_t :=
  fold_left
    (fun u i => mkUART (rxQueue u) (rxQueueSize u) (rxQueueWriteCursor u)
                       (rxQueueReadCursor u) (rxLastTimestamp u)
                       (uxtxreg u ++ [arr_get data i]))
    (seqZ 0 (to_uint8 length)) uart.

End Uart.

(** ** protocol.c *)

Record ProtocolPacket_t := mkPacket {
  status : PacketStatus;
  command : Z;
  dataSize : Z;
  (* the [data] array, by index *)
  data : Z -> Z
}.

(** The bytes of a packet that its [dataSize] covers. *)
Definition packet_payload (packet : ProtocolPacket_t) : list Z :=
  data packet <$> seqZ 0 (dataSize packet).

(** [a[i] = v] on an array given by index. *)
Definition data_set (a : Z -> Z) (i v : Z) : Z -> Z :=
  fun j => if j =? i then v else a j.

(** The array that holds the bytes of [l] from index 0 on. *)
Definition data_of_list (l : list Z) : Z -> Z := arr_get l.

(** A [for] loop over the given indices whose body can fail. *)
Fixpoint for_each {S : Type} (body : S -> Z -> option S) (idx : list Z)
    (s : S) : option S :=
  match idx with
  | [] => Some s
  | i :: idx' =>
      match body s i with
      | Some s' => for_each body idx' s'
      | None => None
      end
  end.

(** A [while] loop that gives up when [fuel] runs out. *)
Fixpoint while {S : Type} (fuel : nat) (cond : S -> bool) (body : S -> S)
    (s : S) : option S :=
  match fuel with
  | O => if cond s then None else Some s
  | S fuel' => if cond s then while fuel' cond body (body s) else Some s
  end.

(** *** Flash and EEPROM drivers *)

Inductive FlashOp :=
  | ErasePage (address : Z)
  | WriteDWORD (address data1 data2 : Z).

(** Modelled from the spec: [flash.c] is missing. The flash holds the
    programmed instruction words by address (an address without a word is
    blank), the addresses at which the hardware refuses to program, and
    the operations in the order they were issued. *)
Record Flash := mkFlash {
  words : gmap Z Z;
  worn : gset Z;
  issued : list FlashOp
}.

(** Modelled from the spec: [eeprom.c] is missing. Persisted byte cells by
    address. *)
Definition EEPROM := Z -> Z.

Section Protocol.
Context `{Header}.

(** Modelled from the spec: [FlashErasePage] of the missing [flash.c]
    blanks the fixed-size block of [_FLASH_ROW * 16] addresses that starts
    at [address]. *)
Definition FlashErasePage (flash : Flash) (address : Z) : Flash :=
  mkFlash
    (filter (fun kv => ¬ (address ≤ kv.1 < address + _FLASH_ROW * 16)) (words flash))
    (worn flash) (issued flash ++ [ErasePage address]).

(** Modelled from the spec: [FlashWriteDWORDAddress] of the missing
    [flash.c] commits two instruction words in one operation, at [address]
    and at the next instruction address, and returns 1; a low-level failure
    returns 0 and commits nothing. *)
Definition FlashWriteDWORDAddress (flash : Flash) (address data1 data2 : Z)
    : Z * Flash :=
  let log := issued flash ++ [WriteDWORD address data1 data2] in
  if decide (address ∈ worn flash) then
    (0, mkFlash (words flash) (worn flash) log)
  else
    (1, mkFlash (<[address + 2 := data2]> (<[address := data1]> (words flash)))
                (worn flash) log).

(** Modelled from the spec: [EEPROMReadByte] of the missing [eeprom.c]
    reads the byte-wide cell at [address]. *)
Definition EEPROMReadByte (eeprom : EEPROM) (address : Z) : Z :=
  to_uint8 (eeprom address).

(** Modelled from the spec: [EEPROMWriteByte] of the missing [eeprom.c]
    stores one byte in the cell at [address]. *)
Definition EEPROMWriteByte (eeprom : EEPROM) (address value : Z) : EEPROM :=
  fun a => if a =? address then to_uint8 value else eeprom a.

(** *** ProtocolFlashErase *)

Definition erase_cond (st : Z * Flash) : bool :=
  st.1 <=? BOOTLOADER_APPLICATION_END.

Definition erase_body (st : Z * Flash) : Z * Flash :=
  let '(address, flash) := st in
  let flash :=
    if (address <? BOOTLOADER_BOOTLOADER_START)
       || (BOOTLOADER_APPLICATION_START <=? address)
    then FlashErasePage flash address else flash in
  (to_uint32 (address + _FLASH_ROW * 16), flash).

Definition ProtocolFlashErase (fuel : nat) (flash : Flash) : option Flash :=
  let address := 0 in
  let flash := FlashErasePage flash address in
  let resetInstruction := to_uint32 (262144 + BOOTLOADER_BOOTLOADER_START) in
  let flash := (FlashWriteDWORDAddress flash 0 resetInstruction 0).2 in
  let address := to_uint32 (address + _FLASH_ROW * 16) in
  snd <$> while fuel erase_cond erase_body (address, flash).

(** *** ProtocolValidatePacket *)

Definition ProtocolValidatePacket (packet : ProtocolPacket_t) (validation : Z)
    : PacketStatus :=
  let chk := to_uint8 (command packet) in
  let chk := to_uint8 (Z.lxor chk (dataSize packet + PROTOCOL_CONTROL_PACKET_SIZE)) in
  let msgSize := to_uint8 (dataSize packet) in
  let chk := fold_left (fun chk idx => to_uint8 (Z.lxor chk (data packet idx)))
                       (seqZ 0 msgSize) chk in
  let chk := to_uint8 (Z.lxor chk validation) in
  if chk =? 0 then PROTOCOL_PACKET_STATUS_OK else PROTOCOL_PACKET_STATUS_BAD.

(** *** ProtocolProcessPacket *)

(** The body of the loop that fills [packet.data]. *)
Definition process_data_byte (st : (Z -> Z) * UART_t) (i : Z) : (Z -> Z) * UART_t :=
  let '(data, uart) := st in
  if 0 <? rxQueueSize uart then
    let '(byte, uart) := UARTGetNextByte uart in (data_set data i byte, uart)
  else (data_set data i 0, uart).

(** [packet] is the local as it is found on the stack: the function only
    sets [status] before its tests. *)
Definition ProtocolProcessPacket (uart : UART_t) (packet : ProtocolPacket_t)
    : ProtocolPacket_t * UART_t :=
  let packet := mkPacket PROTOCOL_PACKET_STATUS_INCOMPLETE (command packet)
                         (dataSize packet) (data packet) in
  if 2 <=? rxQueueSize uart then
    if rxQueueSize uart =? to_uint8 (UARTGetOffsetByte uart 1) then
      let '(cmd, uart) := UARTGetNextByte uart in
      let '(len, uart) := UARTGetNextByte uart in
      let size := to_uint8 (to_uint8 len - PROTOCOL_CONTROL_PACKET_SIZE) in
      let '(bytes, uart) :=
        fold_left process_data_byte (seqZ 0 size) (data packet, uart) in
      let '(validation, uart) := UARTGetNextByte uart in
      let packet := mkPacket PROTOCOL_PACKET_STATUS_INCOMPLETE cmd size bytes in
      (mkPacket (ProtocolValidatePacket packet validation) cmd size bytes, uart)
    else (packet, uart)
  else (packet, uart).

(** *** ProtocolSendPacket *)

(** The body of the copy loop; [data] is what the pointer gives access to. *)
Definition send_copy_byte (data : list Z) (st : list Z * Z) (i : Z)
    : option (list Z * Z) :=
  let '(packet, crc) := st in
  byte ← arr_load data (i - 2);
  packet ← arr_store packet i byte;
  Some (packet, to_uint8 (Z.lxor crc (to_uint8 byte))).

(** [command] and [dataSize] arrive as [unsigned char] and [uint8_t]:
    the callers pass bytes. [None] is an access outside [data] or outside
    the local [packet]. *)
Definition ProtocolSendPacket (uart : UART_t) (command : Z) (data : list Z)
    (dataSize : Z) : option UART_t :=
  let '(dataSize, nullData) :=
    if dataSize =? 0 then (1, 1) else (dataSize, 0) in
  let crc := 0 in
  let length := to_uint8 (dataSize + PROTOCOL_DATA_INDEX_BEGIN) in
  let packet := replicate (Z.to_nat length) 0 in
  let crc := to_uint8 (Z.lxor crc (to_uint8 command)) in
  let crc := to_uint8 (Z.lxor crc (to_uint8 length)) in
  packet ← arr_store packet 0 command;
  packet ← arr_store packet 1 length;
  '(packet, crc) ←
    (if nullData =? 1 then
       packet ← arr_store packet 2 0; Some (packet, crc)
     else for_each (send_copy_byte data) (seqZ 2 (length - 2)) (packet, crc));
  packet ← arr_store packet (length - 1) crc;
  Some (UARTSendData uart packet length).

(** *** ProtocolSendStringPacket *)

(** The scan for the terminator: the number of characters before it, or
    [None] when there is none. *)
Fixpoint string_length (string : list Z) : option Z :=
  match string with
  | [] => None
  | c :: rest => if c =? 0 then Some 0 else Z.succ <$> string_length rest
  end.

(** [len] is a [uint8_t]: the scan sees the first 256 characters only,
    and does not end when the terminator is not among them. *)
Definition ProtocolSendStringPacket (uart : UART_t) (command : Z)
    (string : list Z) : option UART_t :=
  len ← string_length (take 256 string);
  ProtocolSendPacket uart command string (to_uint8 (len + 1)).

(** *** ProtocolFlashWrite *)

Record Stride := mkStride {
  st_address : Z;
  st_index : Z;
  st_flashRes : Z;
  st_flash : Flash
}.

Definition protected_address (address : Z) : bool :=
  ((BOOTLOADER_BOOTLOADER_START <=? address)
   && (address <? BOOTLOADER_APPLICATION_START))
  || (address <? 4).

Definition write_cond (packet : ProtocolPacket_t) (st : Stride) : bool :=
  (st_index st <? dataSize packet) && (st_flashRes st =? 1).

Definition word24 (b2 b1 b0 : Z) : Z :=
  to_uint32 (Z.shiftl 0 24 + Z.shiftl b2 16 + Z.shiftl b1 8 + b0).

Definition write_body (packet : ProtocolPacket_t) (st : Stride) : Stride :=
  let address := st_address st in
  let index := st_index st in
  if protected_address address then
    mkStride (to_uint32 (address + 2)) (to_uint8 (index + 3))
             (st_flashRes st) (st_flash st)
  else
    let data1 := word24 (data packet index) (data packet (index + 1))
                        (data packet (index + 2)) in
    let data2 := word24 (data packet (index + 3)) (data packet (index + 4))
                        (data packet (index + 5)) in
    let '(flashRes, flash) :=
      FlashWriteDWORDAddress (st_flash st) address data1 data2 in
    mkStride (to_uint32 (address + 4)) (to_uint8 (index + 6)) flashRes flash.

(** The indices of [packet->data] that one iteration reads. *)
Definition stride_reads (st : Stride) : list Z :=
  if protected_address (st_address st) then []
  else seqZ (st_index st) 6.

Definition ProtocolFlashWrite (fuel : nat) (uart : UART_t) (flash : Flash)
    (packet : ProtocolPacket_t) : option (UART_t * Flash) :=
  let address := word24 (data packet 0) (data packet 1) (data packet 2) in
  flash ← (if address =? 0 then ProtocolFlashErase fuel flash else Some flash);
  st ← while fuel (write_cond packet) (write_body packet)
             (mkStride address 3 1 flash);
  uart ← (if st_flashRes st =? 1
          then ProtocolSendPacket uart PROTOCOL_CMD_WRITE_DATA_RESPONSE_OK [] 0
          else ProtocolSendPacket uart PROTOCOL_CMD_WRITE_DATA_RESPONSE_ERR [] 0);
  Some (uart, st_flash st).

(** *** ProtocolWriteSerialNumber *)

Definition serial_number (eeprom : EEPROM) : Z :=
  to_uint16 (Z.lor (Z.shiftl (EEPROMReadByte eeprom CONFIG_SN_MSB) 8)
                   (Z.land (EEPROMReadByte eeprom CONFIG_SN_LSB) 255)).

Definition ProtocolWriteSerialNumber (uart : UART_t) (eeprom : EEPROM)
    (packet : ProtocolPacket_t) : option (UART_t * EEPROM) :=
  let serialNumber := serial_number eeprom in
  if serialNumber =? 0 then
    let eeprom := EEPROMWriteByte eeprom CONFIG_SN_MSB (data packet 0) in
    let eeprom := EEPROMWriteByte eeprom CONFIG_SN_LSB (data packet 1) in
    uart ← ProtocolSendPacket uart PROTOCOL_CMD_WRITE_SN_RESPONSE_OK [] 0;
    Some (uart, eeprom)
  else
    uart ← ProtocolSendPacket uart PROTOCOL_CMD_WRITE_SN_RESPONSE_ERR [] 0;
    Some (uart, eeprom).

End Protocol.

(** ** Vocabulary of the properties *)

(** The target of a dual-word write. *)
Definition write_address (op : FlashOp) : option Z :=
  match op with
  | WriteDWORD address _ _ => Some address
  | ErasePage _ => None
  end.

(** The operations issued between two states of the flash. *)
Definition new_ops (before after : Flash) : list FlashOp :=
  drop (length (issued before)) (issued after).

Section Vocabulary.
Context `{Header}.

(** The bounds the transport keeps whatever is pushed or popped. *)
Definition queue_bounds (uart : UART_t) : Prop :=
  0 ≤ rxQueueSize uart ≤ UART_RX_QUEUE_SIZE + 1 ∧
  0 ≤ rxQueueReadCursor uart < UART_RX_QUEUE_SIZE ∧
  0 ≤ rxQueueWriteCursor uart ≤ UART_RX_QUEUE_SIZE.

(** [represents uart q]: the unread bytes of [uart] are [q], oldest
    first, stored from the read cursor on. *)
Record represents (uart : UART_t) (q : list Z) : Prop := {
  rep_length : Z.of_nat (length (rxQueue uart)) = UART_RX_QUEUE_SIZE;
  rep_size : rxQueueSize uart = Z.of_nat (length q);
  rep_fit : rxQueueSize uart ≤ UART_RX_QUEUE_SIZE;
  rep_read : 0 ≤ rxQueueReadCursor uart < UART_RX_QUEUE_SIZE;
  rep_write : 0 ≤ rxQueueWriteCursor uart ≤ UART_RX_QUEUE_SIZE;
  rep_sync : rxQueueWriteCursor uart `mod` UART_RX_QUEUE_SIZE
             = (rxQueueReadCursor uart + rxQueueSize uart) `mod` UART_RX_QUEUE_SIZE;
  rep_bytes : ∀ i, 0 ≤ i < rxQueueSize uart →
      q !! Z.to_nat i
      = Some (arr_get (rxQueue uart)
                ((rxQueueReadCursor uart + i) `mod` UART_RX_QUEUE_SIZE))
}.

Definition rx_has_error (p : RxPending) : bool :=
  negb (Z.land (rx_uxsta p) 14 =? 0).

(** A run of the transport: the receive path stores one pending byte, or
    the consumer takes one. The result is the transport and the bytes the
    pops returned, in order. *)
Fixpoint run_ops (ops : list QueueOp) (uart : UART_t) : UART_t * list Z :=
  match ops with
  | [] => (uart, [])
  | Push p :: ops => run_ops ops (UARTReadByte uart p)
  | Pop :: ops =>
      let '(byte, uart) := UARTGetNextByte uart in
      let '(uart, popped) := run_ops ops uart in
      (uart, byte :: popped)
  end.

(** The same run on a plain queue: what a first-in first-out buffer of
    the accepted bytes holds and returns. *)
Fixpoint fifo_ops (ops : list QueueOp) (q : list Z) : list Z * list Z :=
  match ops with
  | [] => (q, [])
  | Push p :: ops =>
      fifo_ops ops (if rx_has_error p then q else q ++ [to_uint8 (rx_uxrxreg p)])
  | Pop :: ops =>
      let '(q', popped) := fifo_ops ops (tail q) in
      (q', default 0 (head q) :: popped)
  end.

(** A run that stores no byte into a full transport and takes none from
    an empty one. *)
Fixpoint disciplined (ops : list QueueOp) (uart : UART_t) : bool :=
  match ops with
  | [] => true
  | Push p :: ops =>
      (rx_has_error p || (rxQueueSize uart <? UART_RX_QUEUE_SIZE))
      && disciplined ops (UARTReadByte uart p)
  | Pop :: ops =>
      (0 <? rxQueueSize uart) && disciplined ops (UARTGetNextByte uart).2
  end.

(** The bytes a run hands to the receive path. *)
Definition pushed_bytes (ops : list QueueOp) : list Z :=
  omap (fun op => match op with
                  | Push p => Some (to_uint8 (rx_uxrxreg p))
                  | Pop => None
                  end) ops.

(** The span of addresses of one erase block. *)
Definition page_span : Z := _FLASH_ROW * 16.

(** The instruction [ProtocolFlashErase] puts back at the reset vector:
    a jump to the bootloader. *)
Definition reset_instruction : Z :=
  to_uint32 (262144 + BOOTLOADER_BOOTLOADER_START).

(** An erase block the loop of [ProtocolFlashErase] may issue: a block
    after the first whose start address lies outside the bootloader. *)
Definition loop_erase (op : FlashOp) : Prop :=
  ∃ page, op = ErasePage page
          ∧ page_span ≤ page ∧ page `mod` page_span = 0
          ∧ (page < BOOTLOADER_BOOTLOADER_START
             ∨ BOOTLOADER_APPLICATION_START ≤ page).

(** What holds of the loop of [ProtocolFlashErase] before each test. *)
Definition erase_inv (start : Flash) (st : Z * Flash) : Prop :=
  page_span ≤ st.1 ≤ BOOTLOADER_APPLICATION_END + page_span
  ∧ st.1 `mod` page_span = 0
  ∧ words st.2 !! 0 = words start !! 0
  ∧ worn st.2 = worn start
  ∧ ∃ ops, issued st.2 = issued start ++ ops ∧ Forall loop_erase ops.

(** A dual-word write aimed outside the protected ranges. *)
Definition unprotected_write (op : FlashOp) : Prop :=
  ∃ address data1 data2,
    op = WriteDWORD address data1 data2
    ∧ ¬ (BOOTLOADER_BOOTLOADER_START ≤ address < BOOTLOADER_APPLICATION_START)
    ∧ 4 ≤ address.

(** The iteration of the stride loop that writes nothing. *)
Definition skip_stride (st : Stride) : Stride :=
  mkStride (to_uint32 (st_address st + 2)) (to_uint8 (st_index st + 3))
           (st_flashRes st) (st_flash st).

(** The transport once [bytes] have left through the transmit register. *)
Definition uart_tx (uart : UART_t) (bytes : list Z) : UART_t :=
  mkUART (rxQueue uart) (rxQueueSize uart) (rxQueueWriteCursor uart)
         (rxQueueReadCursor uart) (rxLastTimestamp uart) (uxtxreg uart ++ bytes).

(** The bytes transmitted between two states of a transport. *)
Definition sent_bytes (before after : UART_t) : list Z :=
  drop (length (uxtxreg before)) (uxtxreg after).

(** The XOR of command, length and every payload byte. *)
Definition xor_checksum (command length : Z) (payload : list Z) : Z :=
  fold_left Z.lxor payload (Z.lxor command length).

(** Encode a frame, feed the transmitted bytes without receive errors to
    the receive path of the same transport, and decode. *)
Definition loopback (uart : UART_t) (command : Z) (payload : list Z)
    (local : ProtocolPacket_t) : option (ProtocolPacket_t * UART_t) :=
  sent ← ProtocolSendPacket uart command payload (Z.of_nat (length payload));
  Some (ProtocolProcessPacket
          (UARTReadData uart ((fun byte => mkRx 1 byte 0) <$> sent_bytes uart sent))
          local).

End Vocabulary.

(** ** A header for the examples *)

(** Modelled from the spec: [uart.h], [protocol.h] and the memory map are
    missing. The control overhead is 2 (command and length byte), as the
    spec has it, and the transport has 255 slots, so that the occupancy is
    bounded by the 255 + 1 of the spec; opcodes, region bounds and cell
    addresses, which the spec leaves symbolic, are picked for the examples
    only. Every theorem below is stated for an arbitrary [Header]. *)
Definition example_header : Header := {|
  UART_RX_QUEUE_SIZE := 255;
  PROTOCOL_CONTROL_PACKET_SIZE := 2;
  PROTOCOL_DATA_INDEX_BEGIN := 2;
  PROTOCOL_CMD_WRITE_DATA_RESPONSE_OK := 4;
  PROTOCOL_CMD_WRITE_DATA_RESPONSE_ERR := 5;
  PROTOCOL_CMD_WRITE_SN_RESPONSE_OK := 7;
  PROTOCOL_CMD_WRITE_SN_RESPONSE_ERR := 8;
  BOOTLOADER_BOOTLOADER_START := 2048;
  BOOTLOADER_APPLICATION_START := 6144;
  BOOTLOADER_APPLICATION_END := 174078;
  _FLASH_ROW := 128;
  CONFIG_SN_MSB := 0;
  CONFIG_SN_LSB := 1
|}.

(** Modelled from the spec: the same header, but with a control packet
    size of 3, which counts the checksum byte as well. *)
Definition example_header3 : Header := {|
  UART_RX_QUEUE_SIZE := 255;
  PROTOCOL_CONTROL_PACKET_SIZE := 3;
  PROTOCOL_DATA_INDEX_BEGIN := 2;
  PROTOCOL_CMD_WRITE_DATA_RESPONSE_OK := 4;
  PROTOCOL_CMD_WRITE_DATA_RESPONSE_ERR := 5;
  PROTOCOL_CMD_WRITE_SN_RESPONSE_OK := 7;
  PROTOCOL_CMD_WRITE_SN_RESPONSE_ERR := 8;
  BOOTLOADER_BOOTLOADER_START := 2048;
  BOOTLOADER_APPLICATION_START := 6144;
  BOOTLOADER_APPLICATION_END := 174078;
  _FLASH_ROW := 128;
  CONFIG_SN_MSB := 0;
  CONFIG_SN_LSB := 1
|}.


(** A transport after [UARTResetRxQueue], nothing received yet. *)
Definition example_uart : UART_t :=
  @UARTResetRxQueue (mkUART (replicate 255 0) 0 0 0 0 []).

(** A packet local before [ProtocolProcessPacket] fills it. *)
Definition example_local : ProtocolPacket_t :=
  mkPacket PROTOCOL_PACKET_STATUS_BAD 0 0 (fun _ => 0).

(** A blank flash on which every write succeeds. *)
Definition example_flash : Flash := mkFlash ∅ ∅ [].



(** The write request of the end-to-end scenario: address bytes 00 00 00
    and the payload AA BB CC DD EE FF. *)
Definition scenario_packet : ProtocolPacket_t :=
  mkPacket PROTOCOL_PACKET_STATUS_OK 3 9
           (data_of_list [0; 0; 0; 170; 187; 204; 221; 238; 255]).

(** A write request that carries one payload byte, for address 0x2000. *)
Definition short_packet : ProtocolPacket_t :=
  mkPacket PROTOCOL_PACKET_STATUS_OK 3 4 (data_of_list [0; 32; 0; 170]).

(** An EEPROM whose cells all read zero: no serial number yet. *)
Definition blank_eeprom : EEPROM := fun _ => 0.

(** Provisioning requests for the serial numbers 0x0000, 0x1234 and
    0x0102. *)
Definition zero_sn_packet : ProtocolPacket_t :=
  mkPacket PROTOCOL_PACKET_STATUS_OK 6 2 (data_of_list [0; 0]).

Definition first_sn_packet : ProtocolPacket_t :=
  mkPacket PROTOCOL_PACKET_STATUS_OK 6 2 (data_of_list [18; 52]).

Definition other_sn_packet : ProtocolPacket_t :=
  mkPacket PROTOCOL_PACKET_STATUS_OK 6 2 (data_of_list [1; 2]).

(** A byte received without a receive error. *)
Definition rx_ok (byte : Z) : RxPending := mkRx 1 byte 0.

(** ** Further vocabulary *)

Section FurtherVocabulary.
Context `{Header}.

(** The frame [ProtocolProcessPacket] reads a packet from: command, the
    number of bytes of the frame, the payload, the checksum. *)
Definition host_frame (command : Z) (payload : list Z) (checksum : Z) : list Z :=
  [command; Z.of_nat (length payload) + 3] ++ payload ++ [checksum].

(** What the loop of [UARTReadData] gets to see of [pending]: the
    entries before the first one whose data-available bit is clear. *)
Fixpoint available_prefix (pending : list RxPending) : list RxPending :=
  match pending with
  | [] => []
  | p :: pending' =>
      if Z.land (rx_uxsta p) 1 =? 1 then p :: available_prefix pending' else []
  end.

(** The bytes the receive path keeps of what is pending: those it gets
    to see that come without an error flag. *)
Definition accepted_bytes (pending : list RxPending) : list Z :=
  (fun p => to_uint8 (rx_uxrxreg p))
    <$> filter (fun p => rx_has_error p = false) (available_prefix pending).

(** Send a string, feed the transmitted bytes without receive errors to
    the receive path of the same transport, and decode. *)
Definition loopback_string (uart : UART_t) (command : Z) (string : list Z)
    (local : ProtocolPacket_t) : option (ProtocolPacket_t * UART_t) :=
  sent ← ProtocolSendStringPacket uart command string;
  Some (ProtocolProcessPacket
          (UARTReadData uart ((fun byte => mkRx 1 byte 0) <$> sent_bytes uart sent))
          local).

(** Every slot of the receive queue that holds no unread byte is zero. *)
Definition cleared (uart : UART_t) : Prop :=
  ∀ i, 0 ≤ i < UART_RX_QUEUE_SIZE →
       (∀ j, 0 ≤ j < rxQueueSize uart →
             i ≠ (rxQueueReadCursor uart + j) `mod` UART_RX_QUEUE_SIZE) →
       arr_get (rxQueue uart) i = 0.

(** What the loop of [ProtocolFlashErase] has done to the words of the
    flash before each test: the bootloader is as it was, the blocks
    already visited outside the bootloader are blank, and no blank
    address has got a word. *)
Definition erase_words_inv (start : Flash) (st : Z * Flash) : Prop :=
  erase_inv start st
  ∧ (∀ a, BOOTLOADER_BOOTLOADER_START ≤ a < BOOTLOADER_APPLICATION_START →
          words st.2 !! a = words start !! a)
  ∧ (∀ a, words start !! a = None → words st.2 !! a = None)
  ∧ (∀ page a,
       page_span ≤ page < st.1 → page `mod` page_span = 0 →
       page < BOOTLOADER_BOOTLOADER_START ∨ BOOTLOADER_APPLICATION_START ≤ page →
       page ≤ a < page + page_span →
       words st.2 !! a = None).

(** The instruction word that [ProtocolFlashWrite] makes of the three
    payload bytes from [index] on. *)
Definition payload_word (packet : ProtocolPacket_t) (index : Z) : Z :=
  word24 (data packet index) (data packet (index + 1)) (data packet (index + 2)).

(** The dual-word write of the stride number [i] of a run of strides that
    starts at [address] with the payload cursor at [index]. *)
Definition stride_write (packet : ProtocolPacket_t) (address index i : Z)
    : FlashOp :=
  WriteDWORD (address + 4 * i) (payload_word packet (index + 6 * i))
             (payload_word packet (index + 6 * i + 3)).

End FurtherVocabulary.

(** ** Further examples *)

(** A transport whose occupancy has reached capacity + 1. *)
Definition overfull_uart : UART_t := mkUART (replicate 255 0) 256 0 0 0 [].

(** A transport whose occupancy and cursors are out of step, and whose
    slots hold old bytes. *)
Definition stale_uart : UART_t := mkUART (replicate 255 9) 7 200 100 0 [].

(** A packet of one payload byte, AA. *)
Definition checked_packet : ProtocolPacket_t :=
  mkPacket PROTOCOL_PACKET_STATUS_BAD 1 1 (data_of_list [170]).

(** A write request of one stride for address 0x2000. *)
Definition stride_packet : ProtocolPacket_t :=
  mkPacket PROTOCOL_PACKET_STATUS_OK 3 9
           (data_of_list [0; 32; 0; 170; 187; 204; 221; 238; 255]).

(** A write request of two strides for address 0x2000. *)
Definition two_stride_packet : ProtocolPacket_t :=
  mkPacket PROTOCOL_PACKET_STATUS_OK 3 15
           (data_of_list [0; 32; 0; 170; 187; 204; 221; 238; 255;
                          1; 2; 3; 4; 5; 6]).

(** A blank flash on which the write at 0x2004 fails. *)
Definition failing_flash : Flash := mkFlash ∅ {[8196]} [].

(** * Properties *)

(** ** Arithmetic and arrays *)

Lemma to_uint8_range z : 0 ≤ to_uint8 z < 256.
Proof. unfold to_uint8. apply Z.mod_pos_bound. lia. Qed.

Lemma to_uint8_small z : is_byte z → to_uint8 z = z.
Proof. unfold to_uint8. intros. by apply Z.mod_small. Qed.

(** Closes the range side conditions of the casts. *)
Ltac solve_byte := first [done | unfold is_byte in *; lia].

Lemma is_byte_to_uint8 z : is_byte (to_uint8 z).
Proof. apply Z.mod_pos_bound. lia. Qed.

Lemma to_uint32_small z : 0 ≤ z < 4294967296 → to_uint32 z = z.
Proof. unfold to_uint32. intros. by apply Z.mod_small. Qed.

Lemma mod_wrap c x :
  0 < c → 0 ≤ x < 2 * c → x `mod` c = if x <? c then x else x - c.
Proof.
  intros Hc Hx. destruct (Z.ltb_spec x c).
  - apply Z.mod_small. lia.
  - symmetry. apply (Z.mod_unique_pos x c 1); lia.
Qed.

Lemma length_arr_set a i v : length (arr_set a i v) = length a.
Proof. apply length_insert. Qed.

Lemma arr_get_set_eq a i v :
  0 ≤ i < Z.of_nat (length a) → arr_get (arr_set a i v) i = v.
Proof.
  intros Hi. unfold arr_get, arr_set.
  rewrite list_lookup_insert_eq; [done | lia].
Qed.

Lemma arr_get_set_ne a i j v :
  0 ≤ i → 0 ≤ j → i ≠ j → arr_get (arr_set a i v) j = arr_get a j.
Proof.
  intros Hi Hj Hne. unfold arr_get, arr_set.
  rewrite list_lookup_insert_ne; [done | lia].
Qed.

Lemma arr_get_all (l : list Z) : arr_get l <$> seqZ 0 (Z.of_nat (length l)) = l.
Proof.
  apply list_eq. intros i. rewrite list_lookup_fmap.
  destruct (decide (i < length l)%nat) as [Hlt | Hge].
  - rewrite lookup_seqZ_lt by lia. simpl. unfold arr_get.
    rewrite Z.add_0_l, Nat2Z.id.
    destruct (lookup_lt_is_Some_2 l i Hlt) as [x ->]. done.
  - rewrite lookup_seqZ_ge by lia. simpl.
    symmetry. apply lookup_ge_None. lia.
Qed.

Lemma arr_store_Some a i v :
  0 ≤ i < Z.of_nat (length a) → arr_store a i v = Some (arr_set a i v).
Proof. intros. unfold arr_store. by rewrite decide_True. Qed.

Lemma insert_last (l : list Z) x :
  (0 < length l)%nat → <[(length l - 1)%nat := x]> l = take (length l - 1) l ++ [x].
Proof.
  intros Hl. rewrite insert_take_drop by lia.
  by rewrite drop_ge by lia.
Qed.

(** XOR on bytes *)

Lemma to_uint8_lxor a b :
  to_uint8 (Z.lxor a b) = Z.lxor (to_uint8 a) (to_uint8 b).
Proof.
  unfold to_uint8. change 256 with (2 ^ 8).
  rewrite <- !Z.land_ones by lia.
  apply Z.bits_inj'. intros n Hn.
  rewrite !Z.lxor_spec, !Z.land_spec, !Z.lxor_spec.
  by destruct (Z.testbit a n), (Z.testbit b n), (Z.testbit (Z.ones 8) n).
Qed.

Lemma is_byte_lxor a b : is_byte a → is_byte b → is_byte (Z.lxor a b).
Proof.
  intros Ha Hb. unfold is_byte.
  rewrite <- (to_uint8_small a), <- (to_uint8_small b), <- to_uint8_lxor by done.
  apply is_byte_to_uint8.
Qed.

Lemma is_byte_xor_checksum command length payload :
  is_byte command → is_byte length → Forall is_byte payload →
  is_byte (xor_checksum command length payload).
Proof.
  intros Hc Hl Hp. unfold xor_checksum.
  assert (Hstart : is_byte (Z.lxor command length)) by by apply is_byte_lxor.
  revert Hstart. generalize (Z.lxor command length).
  induction Hp as [| b payload Hb Hp IH]; intros acc Hacc; simpl; [done |].
  apply IH. by apply is_byte_lxor.
Qed.

(** The checksum as the source accumulates it, one [uint8_t] at a time. *)
Lemma crc_fold_bytes payload : ∀ crc,
  is_byte crc → Forall is_byte payload →
  fold_left (fun c b => to_uint8 (Z.lxor c (to_uint8 b))) payload crc
  = fold_left Z.lxor payload crc.
Proof.
  induction payload as [| b payload IH]; intros crc Hcrc Hp; simpl; [done |].
  apply Forall_cons in Hp as [Hb Hp].
  rewrite (to_uint8_small b) by done.
  rewrite (to_uint8_small (Z.lxor crc b)) by by apply is_byte_lxor.
  apply IH; [by apply is_byte_lxor | done].
Qed.

Lemma crc_fold_plain payload : ∀ crc,
  is_byte crc → Forall is_byte payload →
  fold_left (fun c b => to_uint8 (Z.lxor c b)) payload crc
  = fold_left Z.lxor payload crc.
Proof.
  induction payload as [| b payload IH]; intros crc Hcrc Hp; simpl; [done |].
  apply Forall_cons in Hp as [Hb Hp].
  rewrite (to_uint8_small (Z.lxor crc b)) by by apply is_byte_lxor.
  apply IH; [by apply is_byte_lxor | done].
Qed.

Lemma fold_left_indices {A : Type} (f : A → Z → A) (g : Z → Z) idx : ∀ a,
  fold_left (fun acc i => f acc (g i)) idx a = fold_left f (g <$> idx) a.
Proof. induction idx as [| i idx IH]; intros a; simpl; [done | apply IH]. Qed.

Lemma xor_checksum_snoc command length payload b :
  xor_checksum command length (payload ++ [b])
  = Z.lxor (xor_checksum command length payload) b.
Proof. unfold xor_checksum. by rewrite fold_left_app. Qed.

(** ** The loops *)

Lemma for_each_app {S : Type} (body : S → Z → option S) l1 : ∀ l2 s,
  for_each body (l1 ++ l2) s = for_each body l1 s ≫= for_each body l2.
Proof.
  induction l1 as [| i l1 IH]; intros l2 s; simpl; [done |].
  destruct (body s i); [apply IH | done].
Qed.

Lemma while_more_fuel {S : Type} (cond : S → bool) (body : S → S) n :
  ∀ m s r, (n ≤ m)%nat → while n cond body s = Some r →
           while m cond body s = Some r.
Proof.
  induction n as [|n IH]; intros m s r Hle Hrun; simpl in Hrun.
  - destruct (cond s) eqn:Hc; [done |].
    destruct m; simpl; by rewrite Hc.
  - destruct m as [|m]; [lia |]. simpl.
    destruct (cond s); [| done]. apply IH; [lia | done].
Qed.

(** A loop whose body lowers a measure runs to its end within that many
    iterations. *)
Lemma while_terminates {S : Type} (cond : S → bool) (body : S → S)
    (inv : S → Prop) (measure : S → nat) :
  (∀ s, inv s → cond s = true → inv (body s) ∧ (measure (body s) < measure s)%nat) →
  ∀ n s, inv s → (measure s ≤ n)%nat → is_Some (while n cond body s).
Proof.
  intros Hstep. induction n as [|n IH]; intros s Hinv Hm; simpl.
  - destruct (cond s) eqn:Hc; [| by eexists].
    destruct (Hstep s Hinv Hc). lia.
  - destruct (cond s) eqn:Hc; [| by eexists].
    destruct (Hstep s Hinv Hc). apply IH; [done | lia].
Qed.

(** The rule for an invariant of a loop that ends. *)
Lemma while_invariant {S : Type} (cond : S → bool) (body : S → S)
    (inv : S → Prop) :
  (∀ s, inv s → cond s = true → inv (body s)) →
  ∀ n s r, inv s → while n cond body s = Some r → inv r ∧ cond r = false.
Proof.
  intros Hstep. induction n as [|n IH]; intros s r Hinv Hrun; simpl in Hrun.
  - destruct (cond s) eqn:Hc; [done |]. by simplify_eq.
  - destruct (cond s) eqn:Hc; [| by simplify_eq].
    eapply IH; [| done]. by apply Hstep.
Qed.

(** ** The circular byte transport *)

Section UartProperties.
Context `{Header}.

Lemma represents_bounds uart q : represents uart q → queue_bounds uart.
Proof. intros []. unfold queue_bounds. lia. Qed.

Lemma queue_bounds_push uart p :
  1 ≤ UART_RX_QUEUE_SIZE → queue_bounds uart → queue_bounds (UARTReadByte uart p).
Proof.
  intros Hc (Hs & Hr & Hw). unfold UARTReadByte.
  destruct (negb (rxQueueSize uart =? _) && _) eqn:Hgo; [| done].
  apply andb_prop in Hgo as [Hne _]. apply negb_true_iff, Z.eqb_neq in Hne.
  unfold queue_bounds; simpl.
  destruct (Z.eqb_spec (rxQueueWriteCursor uart) UART_RX_QUEUE_SIZE); lia.
Qed.

Lemma queue_bounds_pop uart :
  1 ≤ UART_RX_QUEUE_SIZE → queue_bounds uart →
  queue_bounds (UARTGetNextByte uart).2.
Proof.
  intros Hc (Hs & Hr & Hw). unfold UARTGetNextByte, queue_bounds; simpl.
  destruct (Z.leb_spec UART_RX_QUEUE_SIZE (rxQueueReadCursor uart + 1));
  destruct (Z.ltb_spec 0 (rxQueueSize uart)); lia.
Qed.

Lemma represents_reset uart :
  1 ≤ UART_RX_QUEUE_SIZE →
  Z.of_nat (length (rxQueue uart)) = UART_RX_QUEUE_SIZE →
  represents (UARTResetRxQueue uart) [].
Proof.
  intros Hc Hlen. split; simpl; try done; try lia.
Qed.

Lemma push_dropped uart p :
  rx_has_error p = true → UARTReadByte uart p = uart.
Proof.
  unfold rx_has_error, UARTReadByte. intros ->. by rewrite andb_false_r.
Qed.

Lemma represents_push uart q p :
  represents uart q → rxQueueSize uart < UART_RX_QUEUE_SIZE →
  rx_has_error p = false →
  represents (UARTReadByte uart p) (q ++ [to_uint8 (rx_uxrxreg p)]).
Proof.
  intros [Hlen Hsz Hfit Hr Hw Hsync Hbytes] Hroom Herr.
  unfold UARTReadByte. fold (rx_has_error p). rewrite Herr. simpl.
  destruct (Z.eqb_spec (rxQueueSize uart) (UART_RX_QUEUE_SIZE + 1)); [lia |].
  simpl.
  set (c := UART_RX_QUEUE_SIZE) in *.
  set (w := if rxQueueWriteCursor uart =? c then 0 else rxQueueWriteCursor uart).
  assert (Hc : 0 < c) by lia.
  assert (Hw' : 0 ≤ w < c).
  { subst w. destruct (Z.eqb_spec (rxQueueWriteCursor uart) c); lia. }
  assert (Hwm : w = (rxQueueReadCursor uart + rxQueueSize uart) `mod` c).
  { rewrite <- Hsync. subst w.
    destruct (Z.eqb_spec (rxQueueWriteCursor uart) c) as [-> |].
    - by rewrite Z_mod_same_full.
    - symmetry. apply Z.mod_small. lia. }
  split; simpl.
  - by rewrite length_arr_set.
  - rewrite length_app. simpl. lia.
  - lia.
  - done.
  - lia.
  - fold c. rewrite Hwm, Zplus_mod_idemp_l. f_equal. lia.
  - fold c. intros i Hi.
    destruct (decide (i = rxQueueSize uart)) as [-> | Hne].
    + rewrite <- Hwm. rewrite arr_get_set_eq by lia.
      rewrite lookup_app_r by lia.
      replace (Z.to_nat (rxQueueSize uart) - length q)%nat with 0%nat by lia.
      done.
    + rewrite lookup_app_l by lia.
      rewrite Hbytes by lia.
      rewrite arr_get_set_ne; [done | lia | apply Z.mod_pos_bound; lia |].
      rewrite Hwm.
      rewrite (mod_wrap c (rxQueueReadCursor uart + rxQueueSize uart)) by lia.
      rewrite (mod_wrap c (rxQueueReadCursor uart + i)) by lia.
      repeat case_match; rewrite ?Z.ltb_lt, ?Z.ltb_ge in *; lia.
Qed.

Lemma represents_pop uart b q :
  represents uart (b :: q) →
  (UARTGetNextByte uart).1 = b ∧ represents (UARTGetNextByte uart).2 q.
Proof.
  intros [Hlen Hsz Hfit Hr Hw Hsync Hbytes]. simpl in Hsz.
  set (c := UART_RX_QUEUE_SIZE) in *.
  assert (Hc : 0 < c) by lia.
  split.
  - unfold UARTGetNextByte; simpl.
    specialize (Hbytes 0). rewrite Z.add_0_r, Z.mod_small in Hbytes by lia.
    simpl in Hbytes. symmetry. apply (inj Some). apply Hbytes. lia.
  - unfold UARTGetNextByte; simpl. fold c.
    destruct (Z.ltb_spec 0 (rxQueueSize uart)); [| lia].
    set (r := if c <=? rxQueueReadCursor uart + 1 then 0
              else rxQueueReadCursor uart + 1).
    assert (Hr' : 0 ≤ r < c).
    { subst r. destruct (Z.leb_spec c (rxQueueReadCursor uart + 1)); lia. }
    assert (Hrm : ∀ k, 0 ≤ k < c →
              (r + k) `mod` c = (rxQueueReadCursor uart + (k + 1)) `mod` c).
    { intros k Hk. subst r.
      destruct (Z.leb_spec c (rxQueueReadCursor uart + 1)).
      - replace (rxQueueReadCursor uart + (k + 1)) with (k + 1 * c) by lia.
        by rewrite Z_mod_plus_full.
      - f_equal. lia. }
    split; simpl.
    + by rewrite length_arr_set.
    + lia.
    + lia.
    + done.
    + done.
    + fold c. rewrite Hsync, (Hrm (rxQueueSize uart - 1)) by lia.
      f_equal. lia.
    + fold c. intros i Hi. rewrite Hrm by lia.
      specialize (Hbytes (i + 1)).
      replace (Z.to_nat (i + 1)) with (Datatypes.S (Z.to_nat i)) in Hbytes by lia.
      simpl in Hbytes. rewrite Hbytes by lia.
      rewrite arr_get_set_ne; [done | lia | apply Z.mod_pos_bound; lia |].
      rewrite (mod_wrap c (rxQueueReadCursor uart + (i + 1))) by lia.
      case_match; rewrite ?Z.ltb_lt, ?Z.ltb_ge in *; lia.
Qed.

Arguments UARTGetNextByte : simpl never.
Arguments UARTReadByte : simpl never.

Lemma bounds_run ops : ∀ uart,
  1 ≤ UART_RX_QUEUE_SIZE → queue_bounds uart → queue_bounds (run_ops ops uart).1.
Proof.
  induction ops as [| [p |] ops IH]; intros uart Hc Hb; cbn [run_ops].
  - done.
  - apply IH; [done |]. by apply queue_bounds_push.
  - pose proof (queue_bounds_pop uart Hc Hb) as Hb'.
    destruct (UARTGetNextByte uart) as [byte uart'].
    specialize (IH uart' Hc Hb').
    destruct (run_ops ops uart'). by simpl in *.
Qed.

Lemma fifo_run ops : ∀ uart q,
  represents uart q → disciplined ops uart = true →
  represents (run_ops ops uart).1 (fifo_ops ops q).1
  ∧ (run_ops ops uart).2 = (fifo_ops ops q).2.
Proof.
  induction ops as [| [p |] ops IH]; intros uart q Hrep Hd;
    cbn [run_ops fifo_ops disciplined] in *.
  - done.
  - apply andb_prop in Hd as [Hroom Hd].
    destruct (rx_has_error p) eqn:Herr.
    + rewrite push_dropped in * by done. by apply IH.
    + simpl in Hroom. apply Z.ltb_lt in Hroom.
      apply IH; [| done]. by apply represents_push.
  - apply andb_prop in Hd as [Hsome Hd]. apply Z.ltb_lt in Hsome.
    destruct q as [| b q].
    { destruct Hrep as [_ Hsz _ _ _ _ _]. simpl in Hsz. lia. }
    destruct (represents_pop uart b q Hrep) as [Hb Hrep'].
    destruct (UARTGetNextByte uart) as [byte uart']. simpl in *. subst byte.
    destruct (IH uart' q Hrep' Hd) as [IH1 IH2].
    destruct (run_ops ops uart'), (fifo_ops ops q). simpl in *.
    by subst.
Qed.

(** C8, as amended. The occupancy stays within 0 and capacity + 1, the
    read cursor within [0, capacity) and the write cursor within
    [0, capacity] over every run of pushes and pops, of any length; and a
    run that stores no byte into a full transport and takes none from an
    empty one returns at every pop the oldest byte that was stored and not
    yet taken. *)
Theorem ring_buffer_wraparound (ops : list QueueOp) (uart : UART_t) (q : list Z) :
  1 ≤ UART_RX_QUEUE_SIZE →
  represents uart q →
  queue_bounds (run_ops ops uart).1
  ∧ (disciplined ops uart = true →
     represents (run_ops ops uart).1 (fifo_ops ops q).1
     ∧ (run_ops ops uart).2 = (fifo_ops ops q).2).
Proof.
  intros Hc Hrep. split.
  - apply bounds_run; [done |]. by eapply represents_bounds.
  - intros Hd. by apply fifo_run.
Qed.

(** The write cursor rests on the capacity once the last slot is
    written: it wraps only when the next byte is stored. *)
Lemma write_cursor_after_pushes (n : nat) : ∀ uart p,
  Z.land (rx_uxsta p) 1 = 1 → rx_has_error p = false →
  0 ≤ rxQueueSize uart → rxQueueSize uart + Z.of_nat n ≤ UART_RX_QUEUE_SIZE →
  0 ≤ rxQueueWriteCursor uart →
  rxQueueWriteCursor uart + Z.of_nat n ≤ UART_RX_QUEUE_SIZE →
  rxQueueWriteCursor (UARTReadData uart (replicate n p))
  = rxQueueWriteCursor uart + Z.of_nat n.
Proof.
  induction n as [|n IH]; intros uart p Hav Herr Hs Hsn Hw Hwn; simpl.
  - lia.
  - rewrite Hav. cbn [Z.eqb Pos.eqb]. rewrite IH; try done.
    all: unfold UARTReadByte; fold (rx_has_error p); rewrite Herr; simpl.
    all: destruct (Z.eqb_spec (rxQueueSize uart) (UART_RX_QUEUE_SIZE + 1)); [lia |].
    all: simpl.
    all: destruct (Z.eqb_spec (rxQueueWriteCursor uart) UART_RX_QUEUE_SIZE); lia.
Qed.

Lemma write_cursor_reaches_capacity uart p :
  0 ≤ UART_RX_QUEUE_SIZE → Z.land (rx_uxsta p) 1 = 1 → rx_has_error p = false →
  rxQueueWriteCursor
    (UARTReadData (UARTResetRxQueue uart)
                  (replicate (Z.to_nat UART_RX_QUEUE_SIZE) p))
  = UART_RX_QUEUE_SIZE.
Proof.
  intros Hc Hav Herr. rewrite write_cursor_after_pushes; simpl; try done; lia.
Qed.

(** The peek of [UARTGetOffsetByte] changes nothing: it reads the slot
    after the read cursor, wrapping at the capacity. *)
Lemma UARTGetOffsetByte_next uart :
  0 ≤ rxQueueReadCursor uart < UART_RX_QUEUE_SIZE → UART_RX_QUEUE_SIZE ≤ 256 →
  UARTGetOffsetByte uart 1
  = arr_get (rxQueue uart) ((rxQueueReadCursor uart + 1) `mod` UART_RX_QUEUE_SIZE).
Proof.
  intros Hr Hc. unfold UARTGetOffsetByte. f_equal.
  change (Z.to_nat (to_uint8 1)) with 1%nat. simpl.
  rewrite (to_uint8_small (rxQueueReadCursor uart)) by solve_byte.
  rewrite (mod_wrap UART_RX_QUEUE_SIZE) by lia.
  destruct (decide (rxQueueReadCursor uart + 1 = 256)) as [E | E].
  - rewrite E. change (to_uint8 256) with 0.
    assert (UART_RX_QUEUE_SIZE = 256) as -> by lia.
    simpl. destruct (Z.ltb_spec 256 256); lia.
  - rewrite to_uint8_small by solve_byte.
    destruct (Z.leb_spec UART_RX_QUEUE_SIZE (rxQueueReadCursor uart + 1));
    destruct (Z.ltb_spec (rxQueueReadCursor uart + 1) UART_RX_QUEUE_SIZE); lia.
Qed.

End UartProperties.

(** C8 as stated fails: after 255 bytes the write cursor of a 255-byte
    transport is 255, outside [0, capacity). *)
Lemma write_cursor_leaves_range :
  ¬ (∀ ops : list QueueOp,
       let r := @run_ops example_header ops example_uart in
       0 ≤ rxQueueSize r.1 ≤ @UART_RX_QUEUE_SIZE example_header + 1
       ∧ 0 ≤ rxQueueReadCursor r.1 < @UART_RX_QUEUE_SIZE example_header
       ∧ 0 ≤ rxQueueWriteCursor r.1 < @UART_RX_QUEUE_SIZE example_header
       ∧ Forall (fun byte => byte ∈ pushed_bytes ops) r.2).
Proof.
  intros Hclaim.
  destruct (Hclaim (replicate 255 (Push (rx_ok 7)))) as (_ & _ & Hw & _).
  vm_compute in Hw. by destruct Hw.
Qed.

(** A pop from a transport that holds nothing returns the slot under the
    read cursor, a byte that nobody stored, and moves the read cursor. *)
Lemma pop_of_empty_transport :
  @run_ops example_header [Pop] example_uart
  = (mkUART (replicate 255 0) 0 0 1 0 [], [0]).
Proof. vm_compute. done. Qed.

(** A byte that arrives when the transport already holds as many bytes
    as it has slots is stored all the same (the test is against capacity
    + 1): it takes the slot of the oldest unread byte. After the bytes
    1 to 255 and then 77, the occupancy is 256, the first pop returns 77
    and not 1, and the 256th pop returns the slot that the first pop
    cleared. *)
Lemma full_transport_loses_oldest_byte :
  let pushes := (fun b => Push (rx_ok b)) <$> (seqZ 1 255 ++ [77]) in
  let full := (@run_ops example_header pushes example_uart).1 in
  rxQueueSize full = 256
  ∧ (@run_ops example_header (replicate 256 Pop) full).2
    = [77] ++ seqZ 2 254 ++ [0].
Proof. vm_compute. done. Qed.

(** Witness for [ring_buffer_wraparound]: 300 bytes through a 255-byte
    transport, three stored and three taken at a time. *)
Lemma ring_buffer_wraparound_witness :
  let ops := mjoin (replicate 100
               [Push (rx_ok 1); Push (rx_ok 2); Push (rx_ok 3); Pop; Pop; Pop]) in
  queue_bounds (H := example_header) (@run_ops example_header ops example_uart).1
  ∧ represents (H := example_header)
      (@run_ops example_header ops example_uart).1 (fifo_ops ops []).1
  ∧ (@run_ops example_header ops example_uart).2 = (fifo_ops ops []).2.
Proof.
  intros ops.
  destruct (@ring_buffer_wraparound example_header ops example_uart [])
    as [Hbounds Hfifo].
  - simpl. lia.
  - apply (@represents_reset example_header); simpl; [lia | done].
  - split; [exact Hbounds | apply Hfifo; vm_compute; reflexivity].
Defined.

(** ** The packet codec: decoding *)

Section DecodeProperties.
Context `{Header}.

(** C6. A transport that holds fewer than two bytes, or whose occupancy
    differs from the length byte peeked behind the read cursor, makes
    [ProtocolProcessPacket] return a packet of status INCOMPLETE and is
    left as it was: cursors, occupancy and stored bytes. *)
Theorem partial_frame_stability (uart : UART_t) (packet : ProtocolPacket_t) :
  rxQueueSize uart < 2
  ∨ rxQueueSize uart ≠ to_uint8 (UARTGetOffsetByte uart 1) →
  status (ProtocolProcessPacket uart packet).1 = PROTOCOL_PACKET_STATUS_INCOMPLETE
  ∧ (ProtocolProcessPacket uart packet).2 = uart.
Proof.
  intros Hpartial. unfold ProtocolProcessPacket.
  destruct (Z.leb_spec 2 (rxQueueSize uart)) as [Htwo |]; [| done].
  destruct (Z.eqb_spec (rxQueueSize uart) (to_uint8 (UARTGetOffsetByte uart 1)));
    [| done].
  lia.
Qed.

(** Bytes that arrive without receive error while there is room are
    appended to what the transport holds. *)
Lemma represents_read_data pending : ∀ uart q,
  represents uart q →
  Z.of_nat (length q) + Z.of_nat (length pending) ≤ UART_RX_QUEUE_SIZE →
  Forall (fun p => Z.land (rx_uxsta p) 1 = 1) pending →
  Forall (fun p => rx_has_error p = false) pending →
  represents (UARTReadData uart pending)
             (q ++ ((fun p => to_uint8 (rx_uxrxreg p)) <$> pending)).
Proof.
  induction pending as [| p pending IH]; intros uart q Hrep Hroom Hav Hok; simpl.
  - by rewrite app_nil_r.
  - apply Forall_cons in Hok as [Hp Hok]. apply Forall_cons in Hav as [Ha Hav].
    simpl in Hroom. rewrite Ha. cbn [Z.eqb Pos.eqb].
    rewrite (cons_middle _ q), app_assoc.
    apply IH; [| rewrite length_app; simpl; lia | done | done].
    apply represents_push; [done | | done].
    destruct Hrep as [_ Hsz _ _ _ _ _]. lia.
Qed.

(** The peek at offset 1 is the second unread byte. *)
Lemma peek_second_byte uart b0 b1 q :
  represents uart (b0 :: b1 :: q) → UART_RX_QUEUE_SIZE ≤ 256 →
  UARTGetOffsetByte uart 1 = b1.
Proof.
  intros Hrep Hc. pose proof Hrep as [_ Hsz _ Hr _ _ Hbytes].
  rewrite UARTGetOffsetByte_next by done.
  specialize (Hbytes 1). simpl in Hsz, Hbytes.
  symmetry. apply (inj Some). apply Hbytes. lia.
Qed.

Lemma process_data_byte_other d u i j :
  j ≠ i → (process_data_byte (d, u) i).1 j = d j.
Proof.
  intros Hne. unfold process_data_byte.
  destruct (0 <? rxQueueSize u); [destruct (UARTGetNextByte u) |];
    simpl; unfold data_set; by destruct (Z.eqb_spec j i).
Qed.

(** The loop that fills [packet.data] leaves every index it does not
    visit as it was. *)
Lemma process_data_frame idx : ∀ d u j,
  j ∉ idx → (fold_left process_data_byte idx (d, u)).1 j = d j.
Proof.
  induction idx as [| i idx IH]; intros d u j Hj; [done |].
  apply not_elem_of_cons in Hj as [Hne Hj].
  cbn [fold_left].
  pose proof (process_data_byte_other d u i j Hne) as Hstep.
  destruct (process_data_byte (d, u) i) as [d1 u1].
  rewrite IH by done. done.
Qed.

(** While the transport holds the bytes, the loop moves them into
    [packet.data] in order. *)
Lemma process_data_loop bytes : ∀ k d u rest,
  represents u (bytes ++ rest) →
  ∃ d' u',
    fold_left process_data_byte (seqZ k (Z.of_nat (length bytes))) (d, u) = (d', u')
    ∧ represents u' rest
    ∧ d' <$> seqZ k (Z.of_nat (length bytes)) = bytes
    ∧ ∀ j, j < k → d' j = d j.
Proof.
  induction bytes as [| b bytes IH]; intros k d u rest Hrep.
  - exists d, u. rewrite seqZ_nil by (simpl; lia). done.
  - rewrite seqZ_cons by (simpl; lia).
    replace (Z.pred (Z.of_nat (length (b :: bytes)))) with (Z.of_nat (length bytes))
      by (simpl; lia).
    cbn [fold_left].
    assert (Hstep : process_data_byte (d, u) k
                    = (data_set d k b, (UARTGetNextByte u).2)).
    { unfold process_data_byte.
      pose proof Hrep as [_ Hsz _ _ _ _ _]. simpl in Hsz.
      destruct (Z.ltb_spec 0 (rxQueueSize u)); [| lia].
      destruct (represents_pop u b (bytes ++ rest) Hrep) as [Hb _].
      destruct (UARTGetNextByte u). simpl in *. by subst. }
    rewrite Hstep.
    destruct (represents_pop u b (bytes ++ rest) Hrep) as [_ Hrep'].
    set (u1 := (UARTGetNextByte u).2) in *.
    destruct (IH (Z.succ k) (data_set d k b) u1 rest Hrep')
      as (d' & u' & Hrun & Hrep'' & Hmap & Hlow).
    exists d', u'. rewrite Hrun. split_and!; try done.
    + rewrite fmap_cons, Hmap. f_equal. rewrite Hlow by lia.
      unfold data_set. by rewrite Z.eqb_refl.
    + intros j Hj. rewrite Hlow by lia.
      unfold data_set. destruct (Z.eqb_spec j k); [lia | done].
Qed.

End DecodeProperties.

(** Witness for [partial_frame_stability]: three bytes of a frame that
    announces five. *)
Lemma partial_frame_stability_witness :
  let uart := @UARTReadData example_header example_uart
                [rx_ok 1; rx_ok 5; rx_ok 170] in
  status (@ProtocolProcessPacket example_header uart example_local).1
    = PROTOCOL_PACKET_STATUS_INCOMPLETE
  ∧ (@ProtocolProcessPacket example_header uart example_local).2 = uart.
Proof.
  intros uart.
  apply (@partial_frame_stability example_header uart example_local).
  right. vm_compute. discriminate.
Defined.

(** ** The packet codec: encoding *)

Section EncodeProperties.
Context `{Header}.

Lemma uart_tx_nil uart : uart_tx uart [] = uart.
Proof. destruct uart. unfold uart_tx. simpl. by rewrite app_nil_r. Qed.

Lemma uart_tx_app uart l1 l2 : uart_tx (uart_tx uart l1) l2 = uart_tx uart (l1 ++ l2).
Proof. unfold uart_tx. simpl. by rewrite app_assoc. Qed.

Lemma sent_bytes_tx uart bytes : sent_bytes uart (uart_tx uart bytes) = bytes.
Proof. unfold sent_bytes, uart_tx. simpl. by rewrite drop_app_length. Qed.

(** [UARTSendData] puts [data[0]] to [data[length - 1]] on the wire, in
    this order, and touches nothing else. *)
Lemma UARTSendData_tx uart data len :
  UARTSendData uart data len
  = uart_tx uart (arr_get data <$> seqZ 0 (to_uint8 len)).
Proof.
  unfold UARTSendData. generalize (seqZ 0 (to_uint8 len)). intros idx.
  revert uart. induction idx as [| i idx IH]; intros uart; simpl.
  - by rewrite uart_tx_nil.
  - rewrite IH. apply (uart_tx_app uart [arr_get data i]).
Qed.

Lemma UARTSendData_all uart data :
  (length data < 256)%nat →
  UARTSendData uart data (Z.of_nat (length data)) = uart_tx uart data.
Proof.
  intros Hlen. rewrite UARTSendData_tx, to_uint8_small by solve_byte.
  by rewrite arr_get_all.
Qed.

(** The copy loop of [ProtocolSendPacket] after [k] iterations. *)
Lemma send_copy_loop data hdr tl (k : nat) : ∀ crc,
  (k ≤ length data)%nat → length hdr = 2%nat →
  for_each (send_copy_byte data) (seqZ 2 (Z.of_nat k))
           (hdr ++ replicate (length data) 0 ++ tl, crc)
  = Some (hdr ++ take k data ++ replicate (length data - k) 0 ++ tl,
          fold_left (fun c b => to_uint8 (Z.lxor c (to_uint8 b))) (take k data) crc).
Proof.
  induction k as [| k IH]; intros crc Hk Hhdr.
  - rewrite seqZ_nil by lia. simpl. by rewrite Nat.sub_0_r.
  - rewrite seqZ_S, for_each_app, IH by (done || lia). simpl.
    destruct (lookup_lt_is_Some_2 data k) as [b Hb]; [lia |].
    unfold send_copy_byte, arr_load, arr_store.
    rewrite decide_True by lia.
    replace (Z.to_nat (2 + Z.of_nat k - 2)) with k by lia.
    rewrite Hb. simpl.
    rewrite decide_True.
    2:{ rewrite !length_app, length_take, length_replicate. lia. }
    simpl. f_equal. f_equal.
    + unfold arr_set.
      replace (Z.to_nat (2 + Z.of_nat k)) with (length hdr + (length (take k data) + 0))%nat.
      2:{ rewrite length_take. lia. }
      rewrite insert_app_r, insert_app_r.
      replace (length data - k)%nat with (Datatypes.S (length data - Datatypes.S k)) by lia.
      simpl. rewrite (take_S_r _ _ _ Hb), <- app_assoc. done.
    + rewrite (take_S_r _ _ _ Hb), fold_left_app. done.
Qed.

(** What [ProtocolSendPacket] transmits for a payload of 1 to 253 bytes
    when the payload starts at index 2 of the frame: the array has no
    slot left for the checksum, which takes the place of the last
    payload byte. *)
Lemma ProtocolSendPacket_frame uart command payload :
  PROTOCOL_DATA_INDEX_BEGIN = 2 →
  is_byte command → Forall is_byte payload →
  (1 ≤ length payload ≤ 253)%nat →
  ProtocolSendPacket uart command payload (Z.of_nat (length payload))
  = Some (uart_tx uart
            ([command; Z.of_nat (length payload) + 2]
             ++ take (length payload - 1) payload
             ++ [xor_checksum command (Z.of_nat (length payload) + 2) payload])).
Proof.
  intros HD Hcmd Hp Hlen. unfold ProtocolSendPacket.
  set (n := length payload) in *.
  destruct (Z.eqb_spec (Z.of_nat n) 0) as [| _]; [lia |].
  assert (Hlen_byte : is_byte (Z.of_nat n + 2)) by (unfold is_byte; lia).
  rewrite HD. rewrite !(to_uint8_small (Z.of_nat n + 2)) by done.
  rewrite (to_uint8_small command) by done.
  rewrite Z.lxor_0_l.
  rewrite (to_uint8_small command) by done.
  rewrite (to_uint8_small (Z.lxor command _)) by (by apply is_byte_lxor).
  replace (Z.to_nat (Z.of_nat n + 2)) with (2 + n)%nat by lia.
  rewrite (arr_store_Some (replicate (2 + n) 0) 0)
    by (rewrite length_replicate; lia).
  simpl.
  rewrite (arr_store_Some _ 1) by (simpl; rewrite length_replicate; lia).
  simpl. change (0 =? 1) with false. cbn iota.
  replace (Z.of_nat n + 2 - 2) with (Z.of_nat n) by lia.
  change (command :: Z.of_nat n + 2 :: replicate n 0)
    with ([command; Z.of_nat n + 2] ++ replicate n 0).
  rewrite <- (app_nil_r (replicate n 0)).
  rewrite (send_copy_loop payload [command; Z.of_nat n + 2] [] n) by (done || lia).
  subst n. set (n := length payload) in Hlen, Hlen_byte.
  simpl. rewrite Nat.sub_diag, firstn_all. simpl. rewrite app_nil_r.
  rewrite arr_store_Some by (simpl; lia).
  simpl. f_equal.
  set (crc := fold_left _ payload _).
  set (pkt := arr_set _ _ crc).
  assert (Hl : Z.of_nat (length payload) + 2 = Z.of_nat (length pkt)).
  { subst pkt. rewrite length_arr_set. simpl. lia. }
  rewrite Hl, UARTSendData_all by lia.
  rewrite <- Hl. clear Hl.
  subst pkt. f_equal. unfold arr_set.
  replace (Z.to_nat (Z.of_nat (length payload) + 2 - 1))
    with (Datatypes.S (Datatypes.S (length payload - 1))) by lia.
  simpl. f_equal. f_equal. subst crc.
  rewrite crc_fold_bytes by (done || by apply is_byte_lxor).
  fold (xor_checksum command (Z.of_nat (length payload) + 2) payload).
  apply insert_last. lia.
Qed.

Lemma string_length_chars chars :
  Forall (fun c => c ≠ 0) chars →
  string_length (chars ++ [0]) = Some (Z.of_nat (length chars)).
Proof.
  induction 1 as [| c chars Hc _ IH]; simpl; [done |].
  destruct (Z.eqb_spec c 0); [done |]. rewrite IH. simpl. f_equal. lia.
Qed.

(** A string goes out whole: the byte that gives its slot to the
    checksum is the terminator, and a zero byte does not change the
    XOR. The empty answer is the same case, with the zero byte alone. *)
Lemma ProtocolSendStringPacket_frame uart command chars :
  PROTOCOL_DATA_INDEX_BEGIN = 2 →
  is_byte command → Forall is_byte chars → Forall (fun c => c ≠ 0) chars →
  (length chars ≤ 252)%nat →
  ProtocolSendStringPacket uart command (chars ++ [0])
  = Some (uart_tx uart
            ([command; Z.of_nat (length chars) + 3] ++ chars
             ++ [xor_checksum command (Z.of_nat (length chars) + 3) chars])).
Proof.
  intros HD Hcmd Hbytes Hchars Hlen. unfold ProtocolSendStringPacket.
  rewrite take_ge by (rewrite length_app; simpl; lia).
  rewrite string_length_chars by done. simpl.
  rewrite to_uint8_small by solve_byte.
  replace (Z.of_nat (length chars) + 1) with (Z.of_nat (length (chars ++ [0])))
    by (rewrite length_app; simpl; lia).
  rewrite ProtocolSendPacket_frame; try done.
  - rewrite length_app. simpl.
    replace (length chars + 1 - 1)%nat with (length chars) by lia.
    rewrite take_app_length.
    replace (Z.of_nat (length chars + 1) + 2) with (Z.of_nat (length chars) + 3)
      by lia.
    by rewrite xor_checksum_snoc, Z.lxor_0_r.
  - apply Forall_app_2; [done |]. apply Forall_singleton. unfold is_byte. lia.
  - rewrite length_app. simpl. lia.
Qed.

(** Were the payload offset 3, the frame would have room for the
    checksum, but the copy loop would run one index further than the
    payload: it reads [data[dataSize]]. *)
Lemma ProtocolSendPacket_reads_past_payload uart command payload :
  PROTOCOL_DATA_INDEX_BEGIN = 3 →
  (1 ≤ length payload ≤ 252)%nat →
  ProtocolSendPacket uart command payload (Z.of_nat (length payload)) = None.
Proof.
  intros HD Hlen. unfold ProtocolSendPacket.
  set (n := length payload) in *.
  destruct (Z.eqb_spec (Z.of_nat n) 0) as [| _]; [lia |].
  rewrite HD. rewrite !(to_uint8_small (Z.of_nat n + 3)) by solve_byte.
  replace (Z.to_nat (Z.of_nat n + 3)) with (3 + n)%nat by lia.
  rewrite (arr_store_Some (replicate (3 + n) 0) 0)
    by (rewrite length_replicate; lia).
  simpl.
  rewrite (arr_store_Some _ 1) by (simpl; rewrite length_replicate; lia).
  simpl. change (0 =? 1) with false. cbn iota.
  replace (Z.of_nat n + 3 - 2) with (Z.of_nat (Datatypes.S n)) by lia.
  rewrite seqZ_S, for_each_app.
  change (arr_set (arr_set (0 :: 0 :: 0 :: replicate n 0) 0 command) 1
                  (Z.of_nat n + 3))
    with ([command; Z.of_nat n + 3] ++ replicate (Datatypes.S n) 0).
  rewrite replicate_S_end.
  rewrite (send_copy_loop payload [command; Z.of_nat n + 3] [0] n) by (done || lia).
  simpl. unfold send_copy_byte, arr_load.
  rewrite decide_True by lia.
  replace (Z.to_nat (2 + Z.of_nat n - 2)) with n by lia.
  rewrite (lookup_ge_None_2 payload n) by (fold n; lia).
  done.
Qed.

(** The empty answer ([data] null, [dataSize] 0) for any payload offset
    from 2 to 254: the frame goes out and starts with the command. *)
Lemma ProtocolSendPacket_null uart command :
  2 ≤ PROTOCOL_DATA_INDEX_BEGIN ≤ 254 →
  ∃ rest, ProtocolSendPacket uart command [] 0
          = Some (uart_tx uart (command :: rest)).
Proof.
  intros HD. unfold ProtocolSendPacket.
  change (0 =? 0) with true. cbn iota. change (1 =? 1) with true. cbn iota.
  rewrite (to_uint8_small (1 + PROTOCOL_DATA_INDEX_BEGIN)) by solve_byte.
  set (len := 1 + PROTOCOL_DATA_INDEX_BEGIN).
  set (crc := to_uint8 (Z.lxor _ (to_uint8 len))).
  destruct (Z.to_nat len) as [| [| [| m]]] eqn:Hm; try lia.
  unfold arr_store. simpl.
  rewrite !decide_True by (simpl; lia).
  simpl. rewrite decide_True.
  2:{ rewrite length_replicate. lia. }
  simpl. rewrite decide_True.
  2:{ rewrite length_replicate. lia. }
  simpl. rewrite UARTSendData_tx, to_uint8_small by solve_byte.
  rewrite (seqZ_cons 0 len) by lia. simpl.
  unfold arr_get at 1, arr_set.
  replace (Z.to_nat (len - 1)) with (Datatypes.S (Datatypes.S m)) by lia.
  simpl. by eexists.
Qed.

(** With the payload at index 2 the empty answer is three bytes long:
    command, length 3, checksum. *)
Lemma ProtocolSendPacket_null_frame uart command :
  PROTOCOL_DATA_INDEX_BEGIN = 2 → is_byte command →
  ProtocolSendPacket uart command [] 0
  = Some (uart_tx uart [command; 3; Z.lxor command 3]).
Proof.
  intros HD Hcmd. unfold ProtocolSendPacket.
  change (0 =? 0) with true. cbn iota. change (1 =? 1) with true. cbn iota.
  rewrite HD. change (to_uint8 (1 + 2)) with 3. change (to_uint8 3) with 3.
  rewrite Z.lxor_0_l, (to_uint8_small command), (to_uint8_small command) by done.
  rewrite (to_uint8_small (Z.lxor command 3))
    by (apply is_byte_lxor; [done | unfold is_byte; lia]).
  unfold arr_store. simpl.
  by rewrite UARTSendData_tx.
Qed.

End EncodeProperties.

(** ** The packet codec: encoding, then decoding *)

Section RoundTrip.
Context `{Header}.

Lemma rx_ok_no_error byte : rx_has_error (mkRx 1 byte 0) = false.
Proof. done. Qed.

(** Bytes put on the line reach an empty transport as they are. *)
Lemma represents_receive uart frame :
  represents uart [] → Forall is_byte frame →
  Z.of_nat (length frame) ≤ UART_RX_QUEUE_SIZE →
  represents (UARTReadData uart ((fun byte => mkRx 1 byte 0) <$> frame)) frame.
Proof.
  intros Hrep Hframe Hroom.
  assert (Hid : (fun p => to_uint8 (rx_uxrxreg p)) <$> ((fun byte => mkRx 1 byte 0) <$> frame)
                = frame).
  { rewrite <- list_fmap_compose. rewrite <- (list_fmap_id frame) at 2.
    apply Forall_fmap_ext_1. eapply Forall_impl; [exact Hframe |].
    intros b Hb. simpl. by apply to_uint8_small. }
  rewrite <- Hid at 2.
  apply (represents_read_data _ uart [] Hrep).
  - rewrite length_fmap. simpl. lia.
  - apply Forall_fmap, Forall_true. by intros b.
  - apply Forall_fmap, Forall_true. intros b. apply rx_ok_no_error.
Qed.

(** A transport that holds a whole frame: [ProtocolProcessPacket] takes
    the command and the length and goes on to the payload loop. *)
Lemma decode_header uart local cmd len body :
  represents uart (cmd :: len :: body) → UART_RX_QUEUE_SIZE ≤ 256 →
  rxQueueSize uart = to_uint8 len →
  ∃ uart2, represents uart2 body ∧
    ProtocolProcessPacket uart local
    = (let size := to_uint8 (to_uint8 len - PROTOCOL_CONTROL_PACKET_SIZE) in
       let '(bytes, uart) :=
         fold_left process_data_byte (seqZ 0 size) (data local, uart2) in
       let '(validation, uart) := UARTGetNextByte uart in
       let packet := mkPacket PROTOCOL_PACKET_STATUS_INCOMPLETE cmd size bytes in
       (mkPacket (ProtocolValidatePacket packet validation) cmd size bytes, uart)).
Proof.
  intros Hrep Hc Hsize. unfold ProtocolProcessPacket.
  pose proof Hrep as [_ Hsz _ _ _ _ _]. simpl in Hsz.
  destruct (Z.leb_spec 2 (rxQueueSize uart)); [| lia].
  rewrite (peek_second_byte uart cmd len body Hrep Hc).
  rewrite Hsize, Z.eqb_refl.
  destruct (represents_pop uart cmd (len :: body) Hrep) as [Hcmd Hrep1].
  destruct (UARTGetNextByte uart) as [c u1]. simpl in Hcmd, Hrep1. subst c.
  destruct (represents_pop u1 len body Hrep1) as [Hlen Hrep2].
  destruct (UARTGetNextByte u1) as [l u2]. simpl in Hlen, Hrep2. subst l.
  by exists u2.
Qed.

(** The checksum test of [ProtocolValidatePacket] on a packet of bytes. *)
Lemma validate_xor packet validation :
  is_byte (command packet) → is_byte (dataSize packet) →
  is_byte (dataSize packet + PROTOCOL_CONTROL_PACKET_SIZE) →
  Forall is_byte (packet_payload packet) → is_byte validation →
  ProtocolValidatePacket packet validation
  = if Z.lxor (xor_checksum (command packet)
                 (dataSize packet + PROTOCOL_CONTROL_PACKET_SIZE)
                 (packet_payload packet)) validation =? 0
    then PROTOCOL_PACKET_STATUS_OK else PROTOCOL_PACKET_STATUS_BAD.
Proof.
  intros Hcmd Hsz Hlen Hp Hv. unfold ProtocolValidatePacket.
  rewrite (to_uint8_small (command packet)), (to_uint8_small (dataSize packet))
    by done.
  rewrite (to_uint8_small (Z.lxor (command packet) _)) by by apply is_byte_lxor.
  rewrite (fold_left_indices (fun c b => to_uint8 (Z.lxor c b)) (data packet)).
  fold (packet_payload packet).
  rewrite crc_fold_plain by (done || by apply is_byte_lxor).
  fold (xor_checksum (command packet)
          (dataSize packet + PROTOCOL_CONTROL_PACKET_SIZE) (packet_payload packet)).
  rewrite to_uint8_small; [done |].
  apply is_byte_lxor; [| done]. by apply is_byte_xor_checksum.
Qed.

(** What comes back when the frame of [ProtocolSendPacket] is decoded
    with a control packet size of 3: the payload without its last byte,
    and status OK only if that byte was zero. *)
Lemma round_trip_drops_last_byte uart local cmd payload :
  PROTOCOL_DATA_INDEX_BEGIN = 2 → PROTOCOL_CONTROL_PACKET_SIZE = 3 →
  UART_RX_QUEUE_SIZE ≤ 256 → represents uart [] →
  is_byte cmd → Forall is_byte payload →
  (1 ≤ length payload ≤ 250)%nat →
  Z.of_nat (length payload) + 2 ≤ UART_RX_QUEUE_SIZE →
  ∃ packet uart',
    loopback uart cmd payload local = Some (packet, uart')
    ∧ represents uart' []
    ∧ command packet = cmd
    ∧ dataSize packet = Z.of_nat (length payload) - 1
    ∧ packet_payload packet = take (length payload - 1) payload
    ∧ status packet
      = if arr_get payload (Z.of_nat (length payload) - 1) =? 0
        then PROTOCOL_PACKET_STATUS_OK else PROTOCOL_PACKET_STATUS_BAD.
Proof.
  intros HD HC Hcap Hrep Hcmd Hp Hlen Hroom. unfold loopback.
  rewrite ProtocolSendPacket_frame by (done || lia). simpl.
  rewrite sent_bytes_tx.
  set (n := length payload) in *.
  set (crc := xor_checksum cmd (Z.of_nat n + 2) payload).
  assert (Hcrc : is_byte crc).
  { apply is_byte_xor_checksum; [done | unfold is_byte; lia | done]. }
  set (body := take (n - 1) payload).
  assert (Hbody : Forall is_byte body) by by apply Forall_take.
  assert (Hblen : length body = (n - 1)%nat).
  { subst body. rewrite length_take. lia. }
  set (frame := cmd :: Z.of_nat n + 2 :: body ++ [crc]).
  assert (Hframe : Forall is_byte frame).
  { subst frame. repeat apply Forall_cons_2; try done; [unfold is_byte; lia |].
    apply Forall_app_2; [done | by apply Forall_singleton]. }
  pose proof (represents_receive uart frame Hrep Hframe) as Hrx.
  specialize (Hrx ltac:(subst frame; simpl; rewrite length_app, Hblen; simpl; lia)).
  set (rx := UARTReadData uart _) in *.
  destruct (decode_header rx local cmd (Z.of_nat n + 2) (body ++ [crc]) Hrx Hcap)
    as (u2 & Hrep2 & ->).
  { destruct Hrx as [_ Hsz _ _ _ _ _]. rewrite Hsz. simpl.
    rewrite length_app, Hblen, to_uint8_small; simpl; unfold is_byte; lia. }
  rewrite HC. rewrite (to_uint8_small (Z.of_nat n + 2)) by solve_byte.
  replace (Z.of_nat n + 2 - 3) with (Z.of_nat n - 1) by lia.
  rewrite (to_uint8_small (Z.of_nat n - 1)) by solve_byte.
  cbn zeta.
  replace (Z.of_nat n - 1) with (Z.of_nat (length body)) by lia.
  destruct (process_data_loop body 0 (data local) u2 [crc] Hrep2)
    as (d' & u3 & -> & Hrep3 & Hmap & _).
  destruct (represents_pop u3 crc [] Hrep3) as [Hv Hrep4].
  destruct (UARTGetNextByte u3) as [validation u4]. simpl in Hv, Hrep4. subst validation.
  eexists _, u4. split; [reflexivity |]. simpl.
  split_and!; try done.
  rewrite validate_xor; simpl; unfold packet_payload; simpl; rewrite ?Hmap;
    try done; try solve_byte.
  rewrite Hblen, HC.
  replace (Z.of_nat (n - 1) + 3) with (Z.of_nat n + 2) by lia.
  destruct (lookup_lt_is_Some_2 payload (n - 1)) as [b Hb]; [lia |].
  assert (Hpay : payload = body ++ [b]).
  { subst body. rewrite <- (take_drop (n - 1) payload) at 1. f_equal.
    rewrite (drop_S _ _ _ Hb), drop_ge by lia. done. }
  assert (Hcrc' : crc = Z.lxor (xor_checksum cmd (Z.of_nat n + 2) body) b).
  { subst crc. rewrite Hpay at 1. apply xor_checksum_snoc. }
  rewrite Hcrc', <- Z.lxor_assoc, Z.lxor_nilpotent, Z.lxor_0_l.
  unfold arr_get. rewrite Nat2Z.id. by rewrite Hb.
Qed.

(** C4, at the inputs where the code departs from it. With the payload
    at index 2 of the frame, a payload of 1 to 253 bytes goes out as
    command, length (payload size plus 2), every payload byte but the
    last, and the XOR of command, length and every payload byte: the
    checksum is stored over the last payload byte, which is never
    transmitted. *)
Theorem encoder_overwrites_last_payload_byte uart cmd payload :
  PROTOCOL_DATA_INDEX_BEGIN = 2 →
  is_byte cmd → Forall is_byte payload →
  (1 ≤ length payload ≤ 253)%nat →
  ∃ sent,
    ProtocolSendPacket uart cmd payload (Z.of_nat (length payload)) = Some sent
    ∧ sent_bytes uart sent
      = [cmd; Z.of_nat (length payload) + 2]
        ++ take (length payload - 1) payload
        ++ [xor_checksum cmd (Z.of_nat (length payload) + 2) payload]
    ∧ sent_bytes uart sent
      ≠ [cmd; Z.of_nat (length payload) + 2]
        ++ payload
        ++ [xor_checksum cmd (Z.of_nat (length payload) + 2) payload].
Proof.
  intros HD Hcmd Hp Hlen. eexists. split.
  - by apply ProtocolSendPacket_frame.
  - rewrite sent_bytes_tx. split; [done |].
    intros Heq. apply (f_equal length) in Heq.
    simpl in Heq. rewrite !length_app, length_take in Heq. simpl in Heq. lia.
Qed.

(** C1, at an input where the code departs from it. With the payload at
    index 2 of the frame and whatever the control packet size, command 1
    with the one-byte payload AA does not come back: the frame on the
    line is 01 03 A8, and the decoded payload is not AA. *)
Theorem round_trip_loses_payload uart local :
  PROTOCOL_DATA_INDEX_BEGIN = 2 →
  3 ≤ UART_RX_QUEUE_SIZE ≤ 256 →
  represents uart [] →
  ∃ packet uart',
    loopback uart 1 [170] local = Some (packet, uart')
    ∧ packet_payload packet ≠ [170].
Proof.
  intros HD Hcap Hrep. unfold loopback.
  rewrite ProtocolSendPacket_frame
    by first [done | unfold is_byte; lia
             | apply Forall_singleton; unfold is_byte; lia | simpl; lia].
  simpl. rewrite sent_bytes_tx.
  change (xor_checksum 1 (1 + 2) [170]) with 168. change (1 + 2) with 3.
  assert (Hrx : represents
                  (UARTReadData uart ((fun byte => mkRx 1 byte 0) <$> [1; 3; 168]))
                  [1; 3; 168]).
  { apply represents_receive; [done | | simpl; lia].
    repeat apply Forall_cons_2; try apply Forall_nil_2; unfold is_byte; lia. }
  set (rx := UARTReadData uart _) in *.
  destruct (decode_header rx local 1 3 [168] Hrx) as (u2 & Hrep2 & ->); [lia | |].
  { destruct Hrx as [_ Hsz _ _ _ _ _]. by rewrite Hsz. }
  cbn zeta. set (m := to_uint8 (to_uint8 3 - PROTOCOL_CONTROL_PACKET_SIZE)).
  destruct (fold_left process_data_byte (seqZ 0 m) (data local, u2))
    as [d' u3] eqn:Hfold.
  destruct (UARTGetNextByte u3) as [validation u4].
  eexists _, u4. split; [reflexivity |].
  unfold packet_payload. simpl.
  destruct (decide (m ≤ 0)) as [Hm | Hm].
  - by rewrite seqZ_nil.
  - rewrite seqZ_cons by lia. rewrite fmap_cons.
    intros Heq. assert (Hzero : d' 0 = 170) by congruence. clear Heq.
    destruct (process_data_loop [168] 0 (data local) u2 [] Hrep2)
      as (d1 & u1 & Hone & _ & Hmap & _).
    change (Z.of_nat (length [168])) with 1 in Hone, Hmap.
    replace m with (1 + (m - 1)) in Hfold by lia.
    rewrite seqZ_app, fold_left_app, Hone in Hfold by lia.
    pose proof (process_data_frame (seqZ (0 + 1) (m - 1)) d1 u1 0) as Hkeep.
    rewrite Hfold in Hkeep. simpl in Hkeep.
    rewrite Hkeep in Hzero by (rewrite elem_of_seqZ; lia).
    rewrite (seqZ_cons 0 1), seqZ_nil in Hmap by lia. simpl in Hmap.
    congruence.
Qed.

End RoundTrip.

(** Witness for [encoder_overwrites_last_payload_byte]: command 1 with
    the payload AA BB goes out as 01 04 AA 14. *)
Lemma encoder_overwrites_last_payload_byte_witness :
  ∃ sent,
    @ProtocolSendPacket example_header example_uart 1 [170; 187] 2 = Some sent
    ∧ sent_bytes example_uart sent = [1; 4; 170; 20]
    ∧ sent_bytes example_uart sent ≠ [1; 4; 170; 187; 20].
Proof.
  apply (@encoder_overwrites_last_payload_byte example_header example_uart
           1 [170; 187]).
  - reflexivity.
  - unfold is_byte. lia.
  - repeat constructor; lia.
  - simpl. lia.
Defined.

(** Witness for [round_trip_loses_payload]. *)
Lemma round_trip_loses_payload_witness :
  ∃ packet uart',
    @loopback example_header example_uart 1 [170] example_local
    = Some (packet, uart')
    ∧ packet_payload packet ≠ [170].
Proof.
  apply (@round_trip_loses_payload example_header example_uart example_local).
  - reflexivity.
  - simpl. lia.
  - apply (@represents_reset example_header); simpl; [lia | done].
Defined.

(** The round trip at that input, evaluated under both readings of the
    control packet size: 2 gives back the checksum byte as the payload,
    3 gives back no payload at all. *)
Lemma round_trip_example_cps2 :
  (fun r => (status r.1, command r.1, packet_payload r.1))
    <$> @loopback example_header example_uart 1 [170] example_local
  = Some (PROTOCOL_PACKET_STATUS_BAD, 1, [168]).
Proof. vm_compute. done. Qed.

Lemma round_trip_example_cps3 :
  (fun r => (status r.1, command r.1, packet_payload r.1))
    <$> @loopback example_header3 example_uart 1 [170] example_local
  = Some (PROTOCOL_PACKET_STATUS_BAD, 1, []).
Proof. vm_compute. done. Qed.

(** ** The flash engine: Erase-all *)

Section EraseProperties.
Context `{Header}.

Lemma FlashErasePage_outside flash page a :
  ¬ (page ≤ a < page + _FLASH_ROW * 16) →
  words (FlashErasePage flash page) !! a = words flash !! a.
Proof.
  intros Hout. unfold FlashErasePage. simpl.
  rewrite map_lookup_filter. destruct (words flash !! a); simpl; [| done].
  by rewrite option_guard_True.
Qed.

Lemma FlashErasePage_inside flash page a :
  page ≤ a < page + _FLASH_ROW * 16 →
  words (FlashErasePage flash page) !! a = None.
Proof.
  intros Hin. unfold FlashErasePage. simpl.
  apply map_lookup_filter_None. right. intros x _. simpl. tauto.
Qed.

Lemma FlashWriteDWORDAddress_issued flash a d1 d2 :
  issued (FlashWriteDWORDAddress flash a d1 d2).2
  = issued flash ++ [WriteDWORD a d1 d2].
Proof. unfold FlashWriteDWORDAddress. by case_decide. Qed.

Lemma FlashWriteDWORDAddress_worn flash a d1 d2 :
  worn (FlashWriteDWORDAddress flash a d1 d2).2 = worn flash.
Proof. unfold FlashWriteDWORDAddress. by case_decide. Qed.

Lemma FlashWriteDWORDAddress_ok flash a d1 d2 :
  a ∉ worn flash →
  (FlashWriteDWORDAddress flash a d1 d2).1 = 1
  ∧ words (FlashWriteDWORDAddress flash a d1 d2).2 !! a = Some d1
  ∧ words (FlashWriteDWORDAddress flash a d1 d2).2 !! (a + 2) = Some d2.
Proof.
  intros Hgood. unfold FlashWriteDWORDAddress. rewrite decide_False by done.
  simpl. split_and!; [done | |].
  - rewrite lookup_insert_ne by lia. by rewrite lookup_insert_eq.
  - by rewrite lookup_insert_eq.
Qed.

Lemma erase_inv_step start st :
  0 < page_span →
  BOOTLOADER_APPLICATION_END + page_span < 4294967296 →
  erase_inv start st → erase_cond st = true →
  erase_inv start (erase_body st).
Proof.
  intros Hspan Hmax (Hrange & Hmod & Hzero & Hworn & ops & Hops & Hall) Hcond.
  destruct st as [address flash]. unfold erase_cond in Hcond. simpl in *.
  apply Z.leb_le in Hcond.
  unfold erase_body, erase_inv. fold page_span.
  rewrite to_uint32_small by lia. simpl.
  split; [lia |]. split.
  { rewrite <- (Z.mul_1_l page_span) at 1. by rewrite Z_mod_plus_full. }
  destruct ((address <? BOOTLOADER_BOOTLOADER_START)
            || (BOOTLOADER_APPLICATION_START <=? address)) eqn:Hout.
  - split; [| split].
    + rewrite FlashErasePage_outside; [done |]. fold page_span. lia.
    + done.
    + exists (ops ++ [ErasePage address]). simpl. rewrite Hops, app_assoc.
      split; [done |]. apply Forall_app_2; [done |]. apply Forall_singleton.
      exists address. split_and!; try done; lia.
  - split_and!; try done. by exists ops.
Qed.

(** [ProtocolFlashErase] ends, and this is what it has done by then. *)
Lemma ProtocolFlashErase_spec fuel flash :
  0 < page_span → 0 ≤ BOOTLOADER_APPLICATION_END →
  BOOTLOADER_APPLICATION_END + page_span < 4294967296 →
  (Z.to_nat (BOOTLOADER_APPLICATION_END / page_span) ≤ fuel)%nat →
  ∃ flash' ops,
    ProtocolFlashErase fuel flash = Some flash'
    ∧ issued flash'
      = issued flash ++ [ErasePage 0; WriteDWORD 0 reset_instruction 0] ++ ops
    ∧ Forall loop_erase ops
    ∧ worn flash' = worn flash
    ∧ (0 ∉ worn flash → words flash' !! 0 = Some reset_instruction).
Proof.
  intros Hspan Hend Hmax Hfuel. unfold ProtocolFlashErase.
  fold page_span. fold reset_instruction.
  rewrite Z.add_0_l, (to_uint32_small page_span) by lia.
  set (start := (FlashWriteDWORDAddress (FlashErasePage flash 0) 0 reset_instruction 0).2).
  assert (Hinv : erase_inv start (page_span, start)).
  { unfold erase_inv. simpl. split_and!; try done; try lia.
    - apply Z_mod_same_full.
    - exists []. by rewrite app_nil_r. }
  destruct (while_terminates erase_cond erase_body (erase_inv start)
              (fun st => Z.to_nat ((BOOTLOADER_APPLICATION_END + page_span - st.1)
                                   / page_span)))
    with (n := fuel) (s := (page_span, start)) as [[address flash'] Hrun];
    [| done | |].
  { intros st Hst Hcond. split; [by apply erase_inv_step |].
    destruct Hst as (Hrange & _). destruct st as [address fl].
    unfold erase_cond in Hcond. simpl in *. apply Z.leb_le in Hcond.
    unfold erase_body. fold page_span. rewrite to_uint32_small by lia.
    simpl.
    all: replace (BOOTLOADER_APPLICATION_END + page_span - (address + page_span))
           with (BOOTLOADER_APPLICATION_END + page_span - address + (-1) * page_span)
           by lia.
    all: rewrite Z.div_add by lia.
    all: assert (1 ≤ (BOOTLOADER_APPLICATION_END + page_span - address) / page_span)
           by (apply Z.div_le_lower_bound; lia).
    all: lia. }
  { simpl.
    replace (BOOTLOADER_APPLICATION_END + page_span - page_span)
      with BOOTLOADER_APPLICATION_END by lia. done. }
  rewrite Hrun. simpl.
  destruct (while_invariant erase_cond erase_body (erase_inv start)
              (fun st Hst Hc => erase_inv_step start st Hspan Hmax Hst Hc)
              fuel _ _ Hinv Hrun)
    as [(_ & _ & Hzero & Hworn & ops & Hops & Hall) _].
  simpl in *. exists flash', ops. split; [done |].
  assert (Hs1 : issued start
                = issued flash ++ [ErasePage 0; WriteDWORD 0 reset_instruction 0]).
  { unfold start. rewrite FlashWriteDWORDAddress_issued. simpl.
    by rewrite <- app_assoc. }
  assert (Hs2 : worn start = worn flash).
  { unfold start. by rewrite FlashWriteDWORDAddress_worn. }
  assert (Hs3 : 0 ∉ worn flash → words start !! 0 = Some reset_instruction).
  { intros Hgood. unfold start.
    by apply (FlashWriteDWORDAddress_ok (FlashErasePage flash 0) 0). }
  clearbody start. split_and!.
  - by rewrite Hops, Hs1, <- app_assoc.
  - done.
  - congruence.
  - intros Hgood. rewrite Hzero. by apply Hs3.
Qed.


End EraseProperties.



(** ** The flash engine: writing *)

Section WriteProperties.
Context `{Header}.

Lemma protected_address_spec address :
  protected_address address = true
  ↔ (BOOTLOADER_BOOTLOADER_START ≤ address < BOOTLOADER_APPLICATION_START)
    ∨ address < 4.
Proof. unfold protected_address. lia. Qed.

Lemma write_body_protected packet st :
  protected_address (st_address st) = true →
  write_body packet st = skip_stride st.
Proof. intros Hp. unfold write_body. by rewrite Hp. Qed.

Lemma write_body_unprotected packet st :
  protected_address (st_address st) = false →
  write_body packet st
  = let data1 := word24 (data packet (st_index st))
                        (data packet (st_index st + 1))
                        (data packet (st_index st + 2)) in
    let data2 := word24 (data packet (st_index st + 3))
                        (data packet (st_index st + 4))
                        (data packet (st_index st + 5)) in
    let r := FlashWriteDWORDAddress (st_flash st) (st_address st) data1 data2 in
    mkStride (to_uint32 (st_address st + 4)) (to_uint8 (st_index st + 6)) r.1 r.2.
Proof.
  intros Hp. unfold write_body. rewrite Hp. cbn zeta.
  by destruct (FlashWriteDWORDAddress _ _ _ _).
Qed.

(** What the stride loop has issued so far. *)
Lemma write_loop_ops packet fuel st st' :
  while fuel (write_cond packet) (write_body packet) st = Some st' →
  ∃ ops, issued (st_flash st') = issued (st_flash st) ++ ops
         ∧ Forall unprotected_write ops.
Proof.
  intros Hrun.
  apply (while_invariant (write_cond packet) (write_body packet)
           (fun s => ∃ ops, issued (st_flash s) = issued (st_flash st) ++ ops
                            ∧ Forall unprotected_write ops)) in Hrun as [Hinv _].
  - done.
  - intros s (ops & Hops & Hall) _.
    destruct (protected_address (st_address s)) eqn:Hp.
    + rewrite write_body_protected by done. by exists ops.
    + rewrite write_body_unprotected by done. cbn zeta. simpl.
      rewrite FlashWriteDWORDAddress_issued, Hops, <- app_assoc.
      eexists. split; [done |].
      apply Forall_app_2; [done |]. apply Forall_singleton.
      eexists _, _, _. split; [done |].
      apply not_true_iff_false in Hp. rewrite protected_address_spec in Hp. lia.
  - exists []. by rewrite app_nil_r.
Qed.

(** Up to 250 bytes the payload cursor does not wrap, and the stride
    loop ends within as many iterations as bytes are left. *)
Lemma write_loop_terminates packet fuel st :
  dataSize packet ≤ 250 → 0 ≤ st_index st →
  (Z.to_nat (dataSize packet - st_index st) ≤ fuel)%nat →
  is_Some (while fuel (write_cond packet) (write_body packet) st).
Proof.
  intros Hsize Hindex Hfuel.
  apply (while_terminates (write_cond packet) (write_body packet)
           (fun s => 0 ≤ st_index s)
           (fun s => Z.to_nat (dataSize packet - st_index s))); [| done | done].
  intros s Hs Hcond. unfold write_cond in Hcond.
  apply andb_prop in Hcond as [Hlt _]. apply Z.ltb_lt in Hlt.
  destruct (protected_address (st_address s)) eqn:Hp.
  - rewrite write_body_protected by done. simpl.
    rewrite to_uint8_small by solve_byte. lia.
  - rewrite write_body_unprotected by done. simpl.
    rewrite to_uint8_small by solve_byte. lia.
Qed.

(** A write request of up to 250 bytes is always answered. *)
Lemma ProtocolFlashWrite_returns fuel uart flash packet :
  2 ≤ PROTOCOL_DATA_INDEX_BEGIN ≤ 254 →
  0 < page_span → 0 ≤ BOOTLOADER_APPLICATION_END →
  BOOTLOADER_APPLICATION_END + page_span < 4294967296 →
  dataSize packet ≤ 250 →
  (Z.to_nat (dataSize packet) ≤ fuel)%nat →
  (Z.to_nat (BOOTLOADER_APPLICATION_END / page_span) ≤ fuel)%nat →
  is_Some (ProtocolFlashWrite fuel uart flash packet).
Proof.
  intros HD Hspan Hend Hmax Hsize Hfuel1 Hfuel2. unfold ProtocolFlashWrite.
  set (address := word24 _ _ _).
  assert (Hflash : ∃ flash1, (if address =? 0 then ProtocolFlashErase fuel flash
                              else Some flash) = Some flash1).
  { destruct (address =? 0); [| by eexists].
    destruct (ProtocolFlashErase_spec fuel flash Hspan Hend Hmax Hfuel2)
      as (flash1 & _ & -> & _). by eexists. }
  destruct Hflash as [flash1 ->]. simpl.
  destruct (write_loop_terminates packet fuel (mkStride address 3 1 flash1))
    as [st ->]; [done | simpl; lia | simpl; lia |].
  simpl.
  destruct (st_flashRes st =? 1).
  - destruct (ProtocolSendPacket_null uart PROTOCOL_CMD_WRITE_DATA_RESPONSE_OK HD)
      as [rest ->]. by eexists.
  - destruct (ProtocolSendPacket_null uart PROTOCOL_CMD_WRITE_DATA_RESPONSE_ERR HD)
      as [rest ->]. by eexists.
Qed.

(** C3. A stride whose destination lies in
    [BOOTLOADER_START, APPLICATION_START) or below address 4 issues
    nothing and leaves the flash as it is: the address moves on by 2, the
    payload cursor by 3, and the result flag of the request is kept. Over
    a whole run of the stride loop every operation issued is a dual-word
    write aimed outside these ranges. *)
Theorem protected_stride_is_skipped packet fuel st st' :
  while fuel (write_cond packet) (write_body packet) st = Some st' →
  (∀ s, (BOOTLOADER_BOOTLOADER_START ≤ st_address s < BOOTLOADER_APPLICATION_START
         ∨ st_address s < 4) →
        write_body packet s = skip_stride s
        ∧ st_flash (write_body packet s) = st_flash s
        ∧ st_flashRes (write_body packet s) = st_flashRes s)
  ∧ Forall unprotected_write (new_ops (st_flash st) (st_flash st')).
Proof.
  intros Hrun. split.
  - intros s Hs. apply protected_address_spec in Hs.
    by rewrite write_body_protected.
  - destruct (write_loop_ops packet fuel st st' Hrun) as (ops & Hops & Hall).
    unfold new_ops. by rewrite Hops, drop_app_length.
Qed.

(** The second word of a dual-word write lands two addresses further:
    a stride aimed just below the bootloader is not skipped, and its
    second word is committed at the first address of the bootloader. *)
Lemma dual_word_reaches_bootloader packet st :
  6 ≤ BOOTLOADER_BOOTLOADER_START →
  st_address st = BOOTLOADER_BOOTLOADER_START - 2 →
  st_address st ∉ worn (st_flash st) →
  words (st_flash (write_body packet st)) !! BOOTLOADER_BOOTLOADER_START
  = Some (word24 (data packet (st_index st + 3)) (data packet (st_index st + 4))
                 (data packet (st_index st + 5))).
Proof.
  intros Hboot Haddr Hgood.
  rewrite write_body_unprotected.
  2:{ apply not_true_iff_false. rewrite protected_address_spec. lia. }
  cbn zeta. simpl.
  replace BOOTLOADER_BOOTLOADER_START with (st_address st + 2) at 1 by lia.
  by apply FlashWriteDWORDAddress_ok.
Qed.

(** C9, at the inputs where the code departs from it. A stride that is
    not skipped reads [packet->data] at [index] to [index + 5] whatever
    [dataSize] is: when fewer than six bytes are left, the last index
    read is not below [dataSize], and what is read there goes into the
    dual word handed to the flash. *)
Theorem stride_reads_past_data_size packet st :
  protected_address (st_address st) = false →
  st_index st < dataSize packet < st_index st + 6 →
  write_cond packet st = (st_flashRes st =? 1)
  ∧ (∃ i, i ∈ stride_reads st ∧ dataSize packet ≤ i)
  ∧ new_ops (st_flash st) (st_flash (write_body packet st))
    = [WriteDWORD (st_address st)
         (word24 (data packet (st_index st)) (data packet (st_index st + 1))
                 (data packet (st_index st + 2)))
         (word24 (data packet (st_index st + 3)) (data packet (st_index st + 4))
                 (data packet (st_index st + 5)))].
Proof.
  intros Hp Hshort. split_and!.
  - unfold write_cond. destruct (Z.ltb_spec (st_index st) (dataSize packet)); [done | lia].
  - exists (st_index st + 5). split; [| lia].
    unfold stride_reads. rewrite Hp. apply elem_of_seqZ. lia.
  - rewrite write_body_unprotected by done. cbn zeta. simpl.
    unfold new_ops. by rewrite FlashWriteDWORDAddress_issued, drop_app_length.
Qed.

(** C2, as amended. A write request of nine bytes for address 0 runs
    Erase-all, whose only dual-word write is the reset vector at address
    0; both strides of the payload are skipped (they are aimed at
    addresses 0 and 2), so the flash is left as Erase-all left it, and
    the frame sent back starts with WRITE_DATA_RESPONSE_OK. *)
Theorem write_request_at_zero fuel uart flash packet :
  2 ≤ PROTOCOL_DATA_INDEX_BEGIN ≤ 254 →
  0 < page_span → 0 ≤ BOOTLOADER_APPLICATION_END →
  BOOTLOADER_APPLICATION_END + page_span < 4294967296 →
  data packet 0 = 0 → data packet 1 = 0 → data packet 2 = 0 →
  dataSize packet = 9 →
  (2 ≤ fuel)%nat →
  (Z.to_nat (BOOTLOADER_APPLICATION_END / page_span) ≤ fuel)%nat →
  ∃ uart' flash' rest,
    ProtocolFlashWrite fuel uart flash packet = Some (uart', flash')
    ∧ ProtocolFlashErase fuel flash = Some flash'
    ∧ omap write_address (new_ops flash flash') = [0]
    ∧ uart' = uart_tx uart (PROTOCOL_CMD_WRITE_DATA_RESPONSE_OK :: rest).
Proof.
  intros HD Hspan Hend Hmax H0 H1 H2 Hsize Hfuel2 Hfuel.
  destruct (ProtocolFlashErase_spec fuel flash Hspan Hend Hmax Hfuel)
    as (flash' & ops & Herase & Hops & Hall & _ & _).
  destruct (ProtocolSendPacket_null uart PROTOCOL_CMD_WRITE_DATA_RESPONSE_OK HD)
    as [rest Hsend].
  exists (uart_tx uart (PROTOCOL_CMD_WRITE_DATA_RESPONSE_OK :: rest)), flash', rest.
  split_and!; try done.
  - unfold ProtocolFlashWrite. rewrite H0, H1, H2.
    change (word24 0 0 0) with 0. change (0 =? 0) with true. cbn iota.
    rewrite Herase. simpl.
    assert (Hlow : ∀ a, a < 4 → protected_address a = true).
    { intros a Ha. apply protected_address_spec. by right. }
    assert (Hloop : while 2 (write_cond packet) (write_body packet)
                      (mkStride 0 3 1 flash')
                    = Some (mkStride 4 9 1 flash')).
    { simpl. unfold write_cond at 1. rewrite Hsize. simpl.
      rewrite write_body_protected by (by apply Hlow).
      unfold skip_stride at 1 2 3. simpl.
      change (to_uint32 2) with 2. change (to_uint8 6) with 6.
      unfold write_cond at 1. rewrite Hsize. simpl.
      rewrite write_body_protected by (by apply Hlow).
      unfold skip_stride. simpl.
      unfold write_cond. rewrite Hsize. simpl. done. }
    rewrite (while_more_fuel _ _ 2 fuel _ _ Hfuel2 Hloop). simpl.
    by rewrite Hsend.
  - unfold new_ops. rewrite Hops, drop_app_length. simpl. f_equal.
    clear Hops. induction Hall as [| op ops (page & -> & _) _ IH]; [done |].
    simpl. apply IH.
Qed.

End WriteProperties.

(** The scenario, evaluated: the only dual-word write is the one of
    Erase-all at address 0. *)
Lemma scenario_dual_word_writes :
  (fun r => omap write_address (issued r.2))
    <$> @ProtocolFlashWrite example_header 100 example_uart example_flash
          scenario_packet
  = Some [0].
Proof. vm_compute. done. Qed.

(** C2 as stated fails: in the scenario no dual word is written at
    address 4. *)
Lemma scenario_writes_no_dual_word_at_4 :
  ¬ ∃ uart' flash' data1 data2,
      @ProtocolFlashWrite example_header 100 example_uart example_flash
        scenario_packet = Some (uart', flash')
      ∧ WriteDWORD 4 data1 data2 ∈ issued flash'.
Proof.
  intros (uart' & flash' & data1 & data2 & Hrun & Hin).
  pose proof scenario_dual_word_writes as Heval.
  rewrite Hrun in Heval. simpl in Heval.
  assert (Hfour : 4 ∈ omap write_address (issued flash')).
  { apply list_elem_of_omap. by exists (WriteDWORD 4 data1 data2). }
  assert (Hzero : omap write_address (issued flash') = [0]) by congruence.
  rewrite Hzero in Hfour. apply list_elem_of_singleton in Hfour. done.
Qed.

(** Witness for [write_request_at_zero]: the scenario itself. *)
Lemma write_request_at_zero_witness :
  ∃ uart' flash' rest,
    @ProtocolFlashWrite example_header 100 example_uart example_flash
      scenario_packet = Some (uart', flash')
    ∧ @ProtocolFlashErase example_header 100 example_flash = Some flash'
    ∧ omap write_address (new_ops example_flash flash') = [0]
    ∧ uart' = uart_tx example_uart
                (@PROTOCOL_CMD_WRITE_DATA_RESPONSE_OK example_header :: rest).
Proof.
  apply (@write_request_at_zero example_header 100 example_uart example_flash
           scenario_packet); try reflexivity.
  - simpl. lia.
  - discriminate.
  - lia.
  - vm_compute. lia.
Defined.

(** Witness for [protected_stride_is_skipped]: the run of the scenario
    after Erase-all. *)
Lemma protected_stride_is_skipped_witness :
  let st := mkStride 0 3 1 example_flash in
  let st' := mkStride 4 9 1 example_flash in
  (∀ s, (@BOOTLOADER_BOOTLOADER_START example_header ≤ st_address s
         < @BOOTLOADER_APPLICATION_START example_header
         ∨ st_address s < 4) →
        @write_body example_header scenario_packet s = skip_stride s
        ∧ st_flash (@write_body example_header scenario_packet s) = st_flash s
        ∧ st_flashRes (@write_body example_header scenario_packet s) = st_flashRes s)
  ∧ Forall (@unprotected_write example_header) (new_ops (st_flash st) (st_flash st')).
Proof.
  intros st st'.
  apply (@protected_stride_is_skipped example_header scenario_packet 5 st st').
  vm_compute. reflexivity.
Defined.

(** Witness for [stride_reads_past_data_size]: a request of four bytes
    for address 0x2000. Indices 3 to 8 are read, and the dual word
    written is 0xAA0000, 0. *)
Lemma stride_reads_past_data_size_witness :
  let st := mkStride 8192 3 1 example_flash in
  write_cond short_packet st = (st_flashRes st =? 1)
  ∧ (∃ i, i ∈ @stride_reads example_header st ∧ dataSize short_packet ≤ i)
  ∧ new_ops (st_flash st) (st_flash (@write_body example_header short_packet st))
    = [WriteDWORD 8192 11141120 0].
Proof.
  intros st.
  apply (@stride_reads_past_data_size example_header short_packet st).
  - reflexivity.
  - simpl. lia.
Defined.

(** The whole request at that input: one dual word goes to the flash,
    made of one byte of the payload and five bytes from beyond it. *)
Lemma short_request_writes_stale_bytes :
  (fun r => issued r.2)
    <$> @ProtocolFlashWrite example_header 100 example_uart example_flash
          short_packet
  = Some [WriteDWORD 8192 11141120 0].
Proof. vm_compute. done. Qed.

(** ** Serial number provisioning *)

Section SerialProperties.
Context `{Header}.

Lemma to_uint16_lor a b :
  to_uint16 (Z.lor a b) = Z.lor (to_uint16 a) (to_uint16 b).
Proof.
  unfold to_uint16. change 65536 with (2 ^ 16).
  rewrite <- !Z.land_ones by lia.
  apply Z.bits_inj'. intros n Hn.
  rewrite !Z.lor_spec, !Z.land_spec, !Z.lor_spec.
  by destruct (Z.testbit a n), (Z.testbit b n), (Z.testbit (Z.ones 16) n).
Qed.

(** The serial number is zero exactly when both cells read zero. *)
Lemma serial_number_zero eeprom :
  serial_number eeprom = 0
  ↔ EEPROMReadByte eeprom CONFIG_SN_MSB = 0
    ∧ EEPROMReadByte eeprom CONFIG_SN_LSB = 0.
Proof.
  unfold serial_number.
  pose proof (to_uint8_range (eeprom CONFIG_SN_MSB)) as Hm.
  pose proof (to_uint8_range (eeprom CONFIG_SN_LSB)) as Hl.
  unfold EEPROMReadByte.
  set (m := to_uint8 (eeprom CONFIG_SN_MSB)) in *.
  set (l := to_uint8 (eeprom CONFIG_SN_LSB)) in *.
  rewrite to_uint16_lor.
  change 255 with (Z.ones 8). rewrite Z.land_ones by lia.
  rewrite Z.shiftl_mul_pow2 by lia. change (2 ^ 8) with 256.
  rewrite (Z.mod_small l 256) by lia.
  unfold to_uint16.
  rewrite (Z.mod_small (m * 256)), (Z.mod_small l 65536) by lia.
  rewrite Z.lor_eq_0_iff. lia.
Qed.

Lemma EEPROM_read_written eeprom address value :
  EEPROMReadByte (EEPROMWriteByte eeprom address value) address = to_uint8 value.
Proof.
  unfold EEPROMReadByte, EEPROMWriteByte. rewrite Z.eqb_refl.
  apply to_uint8_small, is_byte_to_uint8.
Qed.

Lemma EEPROM_read_other eeprom address value other :
  other ≠ address →
  EEPROMReadByte (EEPROMWriteByte eeprom address value) other
  = EEPROMReadByte eeprom other.
Proof.
  intros Hne. unfold EEPROMReadByte, EEPROMWriteByte.
  by destruct (Z.eqb_spec other address).
Qed.

(** The request that finds no serial number stores the two bytes and
    answers OK. *)
Lemma provisioning_accepted uart eeprom packet :
  2 ≤ PROTOCOL_DATA_INDEX_BEGIN ≤ 254 → CONFIG_SN_MSB ≠ CONFIG_SN_LSB →
  serial_number eeprom = 0 →
  ∃ eeprom' rest,
    ProtocolWriteSerialNumber uart eeprom packet
    = Some (uart_tx uart (PROTOCOL_CMD_WRITE_SN_RESPONSE_OK :: rest), eeprom')
    ∧ EEPROMReadByte eeprom' CONFIG_SN_MSB = to_uint8 (data packet 0)
    ∧ EEPROMReadByte eeprom' CONFIG_SN_LSB = to_uint8 (data packet 1).
Proof.
  intros HD Hcells Hzero.
  destruct (ProtocolSendPacket_null uart PROTOCOL_CMD_WRITE_SN_RESPONSE_OK HD)
    as [rest Hsend].
  unfold ProtocolWriteSerialNumber. rewrite Hzero, Z.eqb_refl, Hsend. simpl.
  eexists _, rest. split; [reflexivity |]. split.
  - rewrite EEPROM_read_other by done. apply EEPROM_read_written.
  - apply EEPROM_read_written.
Qed.

(** The request that finds a serial number stores nothing and answers
    ERR. *)
Lemma provisioning_refused uart eeprom packet :
  2 ≤ PROTOCOL_DATA_INDEX_BEGIN ≤ 254 →
  serial_number eeprom ≠ 0 →
  ∃ rest,
    ProtocolWriteSerialNumber uart eeprom packet
    = Some (uart_tx uart (PROTOCOL_CMD_WRITE_SN_RESPONSE_ERR :: rest), eeprom).
Proof.
  intros HD Hset.
  destruct (ProtocolSendPacket_null uart PROTOCOL_CMD_WRITE_SN_RESPONSE_ERR HD)
    as [rest Hsend].
  unfold ProtocolWriteSerialNumber.
  destruct (Z.eqb_spec (serial_number eeprom) 0); [done |].
  rewrite Hsend. simpl. by exists rest.
Qed.

(** C7, as amended. A request that finds the serial number zero stores
    the first two payload bytes in the two cells and answers
    WRITE_SN_RESPONSE_OK; one that finds it nonzero leaves the cells as
    they are and answers WRITE_SN_RESPONSE_ERR. So after a first request
    whose two bytes are not both zero, a second request with any payload
    is answered with ERR and the cells keep the first value. *)
Theorem serial_number_provisioned_once uart eeprom packet :
  2 ≤ PROTOCOL_DATA_INDEX_BEGIN ≤ 254 → CONFIG_SN_MSB ≠ CONFIG_SN_LSB →
  (serial_number eeprom = 0 →
   ∃ eeprom' rest,
     ProtocolWriteSerialNumber uart eeprom packet
     = Some (uart_tx uart (PROTOCOL_CMD_WRITE_SN_RESPONSE_OK :: rest), eeprom')
     ∧ EEPROMReadByte eeprom' CONFIG_SN_MSB = to_uint8 (data packet 0)
     ∧ EEPROMReadByte eeprom' CONFIG_SN_LSB = to_uint8 (data packet 1)
     ∧ (¬ (to_uint8 (data packet 0) = 0 ∧ to_uint8 (data packet 1) = 0) →
        ∀ uart2 packet2, ∃ rest2,
          ProtocolWriteSerialNumber uart2 eeprom' packet2
          = Some (uart_tx uart2 (PROTOCOL_CMD_WRITE_SN_RESPONSE_ERR :: rest2),
                  eeprom')))
  ∧ (serial_number eeprom ≠ 0 →
     ∃ rest,
       ProtocolWriteSerialNumber uart eeprom packet
       = Some (uart_tx uart (PROTOCOL_CMD_WRITE_SN_RESPONSE_ERR :: rest), eeprom)).
Proof.
  intros HD Hcells. split.
  - intros Hzero.
    destruct (provisioning_accepted uart eeprom packet HD Hcells Hzero)
      as (eeprom' & rest & Hrun & Hmsb & Hlsb).
    exists eeprom', rest. split_and!; try done.
    intros Hnonzero uart2 packet2.
    apply provisioning_refused; [done |].
    rewrite serial_number_zero, Hmsb, Hlsb. done.
  - intros Hset. by apply provisioning_refused.
Qed.

(** C10. When both cells read zero and the two payload bytes are 00 00,
    the request is answered with WRITE_SN_RESPONSE_OK and the serial
    number is still zero, so the next request, whatever its payload,
    stores its two bytes and is answered with OK as well. *)
Theorem zero_serial_number_is_not_kept uart eeprom packet :
  2 ≤ PROTOCOL_DATA_INDEX_BEGIN ≤ 254 → CONFIG_SN_MSB ≠ CONFIG_SN_LSB →
  EEPROMReadByte eeprom CONFIG_SN_MSB = 0 →
  EEPROMReadByte eeprom CONFIG_SN_LSB = 0 →
  data packet 0 = 0 → data packet 1 = 0 →
  ∃ eeprom1 rest,
    ProtocolWriteSerialNumber uart eeprom packet
    = Some (uart_tx uart (PROTOCOL_CMD_WRITE_SN_RESPONSE_OK :: rest), eeprom1)
    ∧ serial_number eeprom1 = 0
    ∧ ∀ uart2 packet2, ∃ eeprom2 rest2,
        ProtocolWriteSerialNumber uart2 eeprom1 packet2
        = Some (uart_tx uart2 (PROTOCOL_CMD_WRITE_SN_RESPONSE_OK :: rest2), eeprom2)
        ∧ EEPROMReadByte eeprom2 CONFIG_SN_MSB = to_uint8 (data packet2 0)
        ∧ EEPROMReadByte eeprom2 CONFIG_SN_LSB = to_uint8 (data packet2 1).
Proof.
  intros HD Hcells Hmsb Hlsb H0 H1.
  assert (Hzero : serial_number eeprom = 0) by by apply serial_number_zero.
  destruct (provisioning_accepted uart eeprom packet HD Hcells Hzero)
    as (eeprom1 & rest & Hrun & Hmsb1 & Hlsb1).
  rewrite H0 in Hmsb1. rewrite H1 in Hlsb1.
  assert (Hzero1 : serial_number eeprom1 = 0) by by apply serial_number_zero.
  exists eeprom1, rest. split_and!; try done.
  intros uart2 packet2. by apply provisioning_accepted.
Qed.

End SerialProperties.

(** Two requests in a row, evaluated: after the bytes 00 00, the bytes
    01 02 are answered with the frame 07 03 04 (7 is
    WRITE_SN_RESPONSE_OK in the example header) and are stored. *)
Lemma provisioning_twice_from_zero :
  (r1 ← @ProtocolWriteSerialNumber example_header example_uart blank_eeprom
          zero_sn_packet;
   r2 ← @ProtocolWriteSerialNumber example_header r1.1 r1.2 other_sn_packet;
   Some (sent_bytes r1.1 r2.1,
         EEPROMReadByte r1.2 0, EEPROMReadByte r1.2 1,
         EEPROMReadByte r2.2 0, EEPROMReadByte r2.2 1))
  = Some ([7; 3; 4], 0, 0, 1, 2).
Proof. vm_compute. done. Qed.

(** C7 as stated fails: after a first request with the bytes 00 00, a
    second request with the bytes 01 02 is not answered with
    WRITE_SN_RESPONSE_ERR, and the cells do not keep the first value. *)
Lemma second_provisioning_after_zero_accepted :
  ¬ ∃ r1 r2,
      @ProtocolWriteSerialNumber example_header example_uart blank_eeprom
        zero_sn_packet = Some r1
      ∧ @ProtocolWriteSerialNumber example_header r1.1 r1.2 other_sn_packet
        = Some r2
      ∧ (head (sent_bytes r1.1 r2.1)
           = Some (@PROTOCOL_CMD_WRITE_SN_RESPONSE_ERR example_header)
         ∨ (EEPROMReadByte r2.2 (@CONFIG_SN_MSB example_header)
              = EEPROMReadByte r1.2 (@CONFIG_SN_MSB example_header)
            ∧ EEPROMReadByte r2.2 (@CONFIG_SN_LSB example_header)
              = EEPROMReadByte r1.2 (@CONFIG_SN_LSB example_header))).
Proof.
  intros (r1 & r2 & Hrun1 & Hrun2 & Hclaim).
  pose proof provisioning_twice_from_zero as Heval.
  rewrite Hrun1 in Heval. simpl in Heval.
  rewrite Hrun2 in Heval. simpl in Heval.
  injection Heval as Hsent Hmsb1 Hlsb1 Hmsb2 Hlsb2. simpl in Hclaim.
  destruct Hclaim as [Herr | [Hmsb _]].
  - rewrite Hsent in Herr. discriminate.
  - congruence.
Qed.

(** Witness for [serial_number_provisioned_once]: 0x1234 is stored, and
    the request for 0x0102 that follows is refused. *)
Lemma serial_number_provisioned_once_witness :
  ∃ eeprom' rest rest2,
    @ProtocolWriteSerialNumber example_header example_uart blank_eeprom
      first_sn_packet
    = Some (uart_tx example_uart (7 :: rest), eeprom')
    ∧ EEPROMReadByte eeprom' 0 = 18
    ∧ EEPROMReadByte eeprom' 1 = 52
    ∧ @ProtocolWriteSerialNumber example_header example_uart eeprom'
        other_sn_packet
      = Some (uart_tx example_uart (8 :: rest2), eeprom').
Proof.
  destruct (@serial_number_provisioned_once example_header example_uart
              blank_eeprom first_sn_packet) as [Hfirst _].
  - simpl. lia.
  - discriminate.
  - destruct Hfirst as (eeprom' & rest & Hrun & Hmsb & Hlsb & Hsecond);
      [reflexivity |].
    destruct (Hsecond ltac:(vm_compute; intros [? ?]; discriminate)
                      example_uart other_sn_packet) as [rest2 Hrefused].
    exists eeprom', rest, rest2. split_and!; done.
Defined.

(** Witness for [zero_serial_number_is_not_kept]. *)
Lemma zero_serial_number_is_not_kept_witness :
  ∃ eeprom1 rest,
    @ProtocolWriteSerialNumber example_header example_uart blank_eeprom
      zero_sn_packet
    = Some (uart_tx example_uart (7 :: rest), eeprom1)
    ∧ @serial_number example_header eeprom1 = 0
    ∧ ∀ uart2 packet2, ∃ eeprom2 rest2,
        @ProtocolWriteSerialNumber example_header uart2 eeprom1 packet2
        = Some (uart_tx uart2 (7 :: rest2), eeprom2)
        ∧ EEPROMReadByte eeprom2 0 = to_uint8 (data packet2 0)
        ∧ EEPROMReadByte eeprom2 1 = to_uint8 (data packet2 1).
Proof.
  apply (@zero_serial_number_is_not_kept example_header example_uart
           blank_eeprom zero_sn_packet); try reflexivity.
  - simpl. lia.
  - discriminate.
Defined.

(** * Further properties of the code *)

(** ** The transport *)

Section TransportExtras.
Context `{Header}.

Lemma offset_cursor_mod (k : nat) : ∀ cursor,
  UART_RX_QUEUE_SIZE ≤ 256 → 0 ≤ cursor < UART_RX_QUEUE_SIZE →
  offset_cursor cursor k = (cursor + Z.of_nat k) `mod` UART_RX_QUEUE_SIZE.
Proof.
  induction k as [| k IH]; intros cursor Hc Hcur.
  - simpl. rewrite Z.add_0_r. symmetry. apply Z.mod_small. lia.
  - cbn [offset_cursor].
    set (next := if UART_RX_QUEUE_SIZE <=? to_uint8 (cursor + 1) then 0
                 else to_uint8 (cursor + 1)).
    assert (Hnext : next = (cursor + 1) `mod` UART_RX_QUEUE_SIZE).
    { subst next. rewrite (mod_wrap UART_RX_QUEUE_SIZE) by lia.
      destruct (decide (cursor + 1 = 256)) as [E | E].
      - rewrite E. change (to_uint8 256) with 0.
        assert (UART_RX_QUEUE_SIZE = 256) as -> by lia. done.
      - rewrite to_uint8_small by solve_byte.
        destruct (Z.leb_spec UART_RX_QUEUE_SIZE (cursor + 1));
        destruct (Z.ltb_spec (cursor + 1) UART_RX_QUEUE_SIZE); lia. }
    rewrite IH; [| done | rewrite Hnext; apply Z.mod_pos_bound; lia].
    rewrite Hnext, Zplus_mod_idemp_l. f_equal. lia.
Qed.

(** X1. The peek of [UARTGetOffsetByte] at an offset below the
    occupancy returns the unread byte at that position, counted from the
    oldest, also when the position lies beyond the wrap of the buffer. *)
Theorem peek_returns_unread_byte (uart : UART_t) (q : list Z) (offset : nat) (byte : Z) :
  UART_RX_QUEUE_SIZE ≤ 256 →
  represents uart q →
  q !! offset = Some byte →
  UARTGetOffsetByte uart (Z.of_nat offset) = byte.
Proof.
  intros Hc Hrep Hlook.
  pose proof Hrep as [_ Hsz Hfit Hr _ _ Hbytes].
  apply lookup_lt_Some in Hlook as Hlt.
  unfold UARTGetOffsetByte.
  rewrite (to_uint8_small (rxQueueReadCursor uart)) by solve_byte.
  rewrite (to_uint8_small (Z.of_nat offset)) by solve_byte.
  rewrite Nat2Z.id, offset_cursor_mod by done.
  specialize (Hbytes (Z.of_nat offset)). rewrite Nat2Z.id, Hlook in Hbytes.
  symmetry. apply (inj Some). apply Hbytes. lia.
Qed.

Lemma accepted_bytes_cons p pending :
  accepted_bytes (p :: pending)
  = if Z.land (rx_uxsta p) 1 =? 1 then
      if rx_has_error p then accepted_bytes pending
      else to_uint8 (rx_uxrxreg p) :: accepted_bytes pending
    else [].
Proof.
  unfold accepted_bytes. cbn [available_prefix].
  destruct (Z.land (rx_uxsta p) 1 =? 1); [| done].
  destruct (rx_has_error p) eqn:Herr.
  - by rewrite filter_cons_False by (by rewrite Herr).
  - by rewrite filter_cons_True by done.
Qed.

Lemma represents_read_pending pending : ∀ uart q,
  represents uart q →
  Z.of_nat (length q) + Z.of_nat (length (accepted_bytes pending))
    ≤ UART_RX_QUEUE_SIZE →
  represents (UARTReadData uart pending) (q ++ accepted_bytes pending).
Proof.
  induction pending as [| p pending IH]; intros uart q Hrep Hroom.
  - simpl. by rewrite app_nil_r.
  - rewrite accepted_bytes_cons in *. cbn [UARTReadData].
    destruct (Z.land (rx_uxsta p) 1 =? 1); [| by rewrite app_nil_r].
    destruct (rx_has_error p) eqn:Herr.
    + rewrite push_dropped by done. by apply IH.
    + simpl in Hroom. rewrite (cons_middle _ q), app_assoc.
      apply IH; [| rewrite length_app; simpl; lia].
      apply represents_push; [done | | done].
      destruct Hrep as [_ Hsz _ _ _ _ _]. lia.
Qed.

(** X2. [UARTReadData] takes the pending bytes for as long as the
    data-available bit of the status is set: it drops every one of them
    that comes with a framing, parity or overrun flag and appends the
    others, in the order received, behind what the transport holds, as
    long as they fit. What is pending behind the first entry whose
    data-available bit is clear is not touched. *)
Theorem receive_drops_flagged_bytes (uart : UART_t) (q : list Z)
    (pending : list RxPending) :
  represents uart q →
  Z.of_nat (length q) + Z.of_nat (length (accepted_bytes pending))
    ≤ UART_RX_QUEUE_SIZE →
  represents (UARTReadData uart pending) (q ++ accepted_bytes pending)
  ∧ ∀ rest p,
      Z.land (rx_uxsta p) 1 ≠ 1 →
      UARTReadData uart (pending ++ p :: rest) = UARTReadData uart pending.
Proof.
  intros Hrep Hroom. split; [by apply represents_read_pending |].
  intros rest p Hclear. clear Hrep Hroom. revert uart.
  induction pending as [| p' pending IH]; intros uart; cbn [app UARTReadData].
  - by rewrite (proj2 (Z.eqb_neq _ _) Hclear).
  - destruct (Z.land (rx_uxsta p') 1 =? 1); [apply IH | done].
Qed.

(** X3. Once the occupancy stands at capacity + 1, [UARTReadData] drops
    whatever arrives: the transport stays as it is. *)
Theorem receive_when_overfull_drops_all (uart : UART_t) (pending : list RxPending) :
  rxQueueSize uart = UART_RX_QUEUE_SIZE + 1 →
  UARTReadData uart pending = uart.
Proof.
  intros Hfull.
  induction pending as [| p pending IH]; [done |].
  cbn [UARTReadData]. destruct (Z.land (rx_uxsta p) 1 =? 1); [| done].
  unfold UARTReadByte at 1.
  by rewrite Hfull, Z.eqb_refl.
Qed.

Lemma arr_get_take (l : list Z) (k : nat) :
  (k ≤ length l)%nat → arr_get l <$> seqZ 0 (Z.of_nat k) = take k l.
Proof.
  intros Hk. rewrite <- (arr_get_all (take k l)).
  rewrite length_take, Nat.min_l by done.
  apply list_eq. intros i. rewrite !list_lookup_fmap.
  destruct (decide (i < k)%nat) as [Hlt | Hge].
  - rewrite lookup_seqZ_lt by lia. simpl. unfold arr_get.
    rewrite Z.add_0_l, Nat2Z.id. by rewrite lookup_take_lt.
  - by rewrite lookup_seqZ_ge by lia.
Qed.

(** X4. [UARTSendData] puts the first [length] bytes of its buffer on
    the line, in order, and leaves the receive side of the transport as
    it was. *)
Theorem send_data_in_order (uart : UART_t) (data : list Z) (length : nat) :
  (length ≤ List.length data)%nat → (length < 256)%nat →
  UARTSendData uart data (Z.of_nat length) = uart_tx uart (take length data)
  ∧ sent_bytes uart (UARTSendData uart data (Z.of_nat length)) = take length data
  ∧ rxQueue (UARTSendData uart data (Z.of_nat length)) = rxQueue uart
  ∧ rxQueueSize (UARTSendData uart data (Z.of_nat length)) = rxQueueSize uart.
Proof.
  intros Hlen Hbyte.
  assert (Hsend : UARTSendData uart data (Z.of_nat length)
                  = uart_tx uart (take length data)).
  { rewrite UARTSendData_tx, to_uint8_small by solve_byte.
    by rewrite arr_get_take. }
  rewrite Hsend. split_and!; try done. apply sent_bytes_tx.
Qed.

End TransportExtras.

(** Witness for [peek_returns_unread_byte]: the third of three unread
    bytes. *)
Lemma peek_returns_unread_byte_witness :
  @UARTGetOffsetByte example_header
    (@UARTReadData example_header example_uart (rx_ok <$> [1; 5; 170])) 2
  = 170.
Proof.
  apply (@peek_returns_unread_byte example_header _ [1; 5; 170] 2 170).
  - simpl. lia.
  - apply (@represents_receive example_header).
    + apply (@represents_reset example_header); simpl; [lia | done].
    + repeat constructor; unfold is_byte; lia.
    + simpl. lia.
  - reflexivity.
Defined.

(** Witness for [receive_drops_flagged_bytes]: the second of three
    pending bytes comes with a framing error; whatever is pending behind
    them with the data-available bit clear changes nothing. *)
Lemma receive_drops_flagged_bytes_witness :
  let pending := [rx_ok 1; mkRx 5 2 0; rx_ok 3] in
  represents (H := example_header)
    (@UARTReadData example_header example_uart pending) [1; 3]
  ∧ ∀ rest p,
      Z.land (rx_uxsta p) 1 ≠ 1 →
      @UARTReadData example_header example_uart (pending ++ p :: rest)
      = @UARTReadData example_header example_uart pending.
Proof.
  intros pending.
  apply (@receive_drops_flagged_bytes example_header example_uart [] pending).
  - apply (@represents_reset example_header); simpl; [lia | done].
  - vm_compute. discriminate.
Defined.

(** Witness for [receive_when_overfull_drops_all]. *)
Lemma receive_when_overfull_drops_all_witness :
  @UARTReadData example_header overfull_uart [rx_ok 1; rx_ok 2] = overfull_uart.
Proof.
  apply (@receive_when_overfull_drops_all example_header overfull_uart).
  reflexivity.
Defined.

(** Witness for [send_data_in_order]: two bytes of a buffer of three. *)
Lemma send_data_in_order_witness :
  UARTSendData example_uart [1; 2; 3] 2 = uart_tx example_uart [1; 2]
  ∧ sent_bytes example_uart (UARTSendData example_uart [1; 2; 3] 2) = [1; 2]
  ∧ rxQueue (UARTSendData example_uart [1; 2; 3] 2) = rxQueue example_uart
  ∧ rxQueueSize (UARTSendData example_uart [1; 2; 3] 2) = rxQueueSize example_uart.
Proof.
  apply (send_data_in_order example_uart [1; 2; 3] 2); simpl; lia.
Defined.

(** ** The packet codec *)

(** Equations between XORs of the same operands. *)
Ltac solve_lxor :=
  apply Z.bits_inj'; intros ? ?; rewrite !Z.lxor_spec;
  repeat match goal with
         | |- context [Z.testbit ?a ?n] => destruct (Z.testbit a n)
         end;
  reflexivity.

Lemma fold_lxor_acc (l : list Z) : ∀ acc,
  fold_left Z.lxor l acc = Z.lxor acc (fold_left Z.lxor l 0).
Proof.
  induction l as [| b l IH]; intros acc; simpl.
  - by rewrite Z.lxor_0_r.
  - rewrite ?Z.lxor_0_l. rewrite (IH (Z.lxor acc b)), (IH b). solve_lxor.
Qed.

Lemma fold_lxor_insert (l : list Z) : ∀ (i : nat) x y acc,
  l !! i = Some x →
  fold_left Z.lxor (<[i:=y]> l) acc
  = Z.lxor (Z.lxor (fold_left Z.lxor l acc) x) y.
Proof.
  induction l as [| b l IH]; intros i x y acc Hx; [done |].
  destruct i as [| i]; simpl in *.
  - simplify_eq. rewrite (fold_lxor_acc l (Z.lxor acc y)),
      (fold_lxor_acc l (Z.lxor acc x)). solve_lxor.
  - by apply IH.
Qed.

Lemma payload_data_set (d : Z → Z) n i v :
  0 ≤ i < n →
  data_set d i v <$> seqZ 0 n = <[Z.to_nat i := v]> (d <$> seqZ 0 n).
Proof.
  intros Hi. apply list_eq. intros j. rewrite list_lookup_fmap.
  destruct (decide (Z.of_nat j < n)) as [Hj | Hj].
  - rewrite lookup_seqZ_lt by done. simpl.
    destruct (decide (j = Z.to_nat i)) as [-> | Hne].
    + rewrite list_lookup_insert_eq by (rewrite length_fmap, length_seqZ; lia).
      unfold data_set. destruct (Z.eqb_spec (0 + Z.of_nat (Z.to_nat i)) i); [done | lia].
    + rewrite list_lookup_insert_ne by done.
      rewrite list_lookup_fmap, lookup_seqZ_lt by done. simpl.
      unfold data_set. destruct (Z.eqb_spec (0 + Z.of_nat j) i); [lia | done].
  - rewrite lookup_seqZ_ge by lia. simpl. symmetry.
    apply lookup_ge_None. rewrite length_insert, length_fmap, length_seqZ. lia.
Qed.

Section CodecExtras.
Context `{Header}.

(** X5. On a packet of bytes [ProtocolValidatePacket] answers OK for
    exactly one validation byte: the XOR of the command, of the length
    field (payload size plus control packet size) and of every payload
    byte. Every other byte gives BAD. *)
Theorem validation_accepts_only_the_checksum (packet : ProtocolPacket_t)
    (validation : Z) :
  is_byte (command packet) → is_byte (dataSize packet) →
  is_byte (dataSize packet + PROTOCOL_CONTROL_PACKET_SIZE) →
  Forall is_byte (packet_payload packet) → is_byte validation →
  (ProtocolValidatePacket packet validation = PROTOCOL_PACKET_STATUS_OK
   ↔ validation = xor_checksum (command packet)
                    (dataSize packet + PROTOCOL_CONTROL_PACKET_SIZE)
                    (packet_payload packet))
  ∧ (ProtocolValidatePacket packet validation = PROTOCOL_PACKET_STATUS_BAD
     ↔ validation ≠ xor_checksum (command packet)
                      (dataSize packet + PROTOCOL_CONTROL_PACKET_SIZE)
                      (packet_payload packet)).
Proof.
  intros Hcmd Hsz Hlen Hp Hv. rewrite validate_xor by done.
  set (chk := xor_checksum _ _ _).
  destruct (Z.eqb_spec (Z.lxor chk validation) 0) as [Hz | Hnz].
  - apply Z.lxor_eq in Hz. split; split; try done; intros; congruence.
  - assert (validation ≠ chk).
    { intros ->. by rewrite Z.lxor_nilpotent in Hnz. }
    split; split; try done; intros; congruence.
Qed.

(** X6. A packet that validates no longer does once one byte of its
    payload is changed: the status turns to BAD. *)
Theorem changed_payload_byte_is_detected (packet : ProtocolPacket_t)
    (validation index byte : Z) :
  is_byte (command packet) → is_byte (dataSize packet) →
  is_byte (dataSize packet + PROTOCOL_CONTROL_PACKET_SIZE) →
  Forall is_byte (packet_payload packet) → is_byte validation →
  0 ≤ index < dataSize packet → is_byte byte → byte ≠ data packet index →
  ProtocolValidatePacket packet validation = PROTOCOL_PACKET_STATUS_OK →
  ProtocolValidatePacket
    (mkPacket (status packet) (command packet) (dataSize packet)
              (data_set (data packet) index byte))
    validation
  = PROTOCOL_PACKET_STATUS_BAD.
Proof.
  intros Hcmd Hsz Hlen Hp Hv Hi Hb Hne Hok.
  rewrite validate_xor in Hok by done.
  destruct (Z.eqb_spec (Z.lxor (xor_checksum (command packet)
              (dataSize packet + PROTOCOL_CONTROL_PACKET_SIZE)
              (packet_payload packet)) validation) 0) as [Hz | ]; [| done].
  assert (Hold : packet_payload packet !! Z.to_nat index = Some (data packet index)).
  { unfold packet_payload. rewrite list_lookup_fmap, lookup_seqZ_lt by lia.
    simpl. f_equal. f_equal. lia. }
  rewrite validate_xor; simpl; try done.
  2:{ unfold packet_payload. simpl. rewrite payload_data_set by done.
      apply Forall_insert; done. }
  unfold packet_payload at 1. simpl. rewrite payload_data_set by done.
  fold (packet_payload packet).
  unfold xor_checksum in *.
  rewrite (fold_lxor_insert _ _ (data packet index)) by done.
  set (chk := fold_left Z.lxor (packet_payload packet) _) in *.
  destruct (Z.eqb_spec (Z.lxor (Z.lxor (Z.lxor chk (data packet index)) byte)
                               validation) 0) as [Hz' | ]; [| done].
  apply Z.lxor_eq in Hz. apply Z.lxor_eq in Hz'.
  exfalso. apply Hne. symmetry. apply Z.lxor_eq.
  assert (Hid : Z.lxor (data packet index) byte
                = Z.lxor chk (Z.lxor (Z.lxor chk (data packet index)) byte))
    by solve_lxor.
  rewrite Hid, Hz', <- Hz. apply Z.lxor_nilpotent.
Qed.

(** The decoder on a whole frame, whatever its checksum byte. *)
Lemma decode_host_frame uart local cmd payload chk :
  PROTOCOL_CONTROL_PACKET_SIZE = 3 → UART_RX_QUEUE_SIZE ≤ 256 →
  represents uart (host_frame cmd payload chk) →
  is_byte cmd → Forall is_byte payload → is_byte chk →
  (length payload ≤ 252)%nat →
  ∃ packet uart',
    ProtocolProcessPacket uart local = (packet, uart')
    ∧ represents uart' []
    ∧ command packet = cmd
    ∧ dataSize packet = Z.of_nat (length payload)
    ∧ packet_payload packet = payload
    ∧ status packet
      = if decide (chk = xor_checksum cmd (Z.of_nat (length payload) + 3) payload)
        then PROTOCOL_PACKET_STATUS_OK else PROTOCOL_PACKET_STATUS_BAD.
Proof.
  intros HC Hcap Hrep Hcmd Hp Hchk Hlen. unfold host_frame in Hrep.
  set (n := length payload) in *.
  destruct (decode_header uart local cmd (Z.of_nat n + 3) (payload ++ [chk]) Hrep Hcap)
    as (u2 & Hrep2 & ->).
  { destruct Hrep as [_ Hsz _ _ _ _ _]. rewrite Hsz. simpl.
    rewrite length_app, to_uint8_small; simpl; fold n; unfold is_byte; lia. }
  rewrite HC. rewrite (to_uint8_small (Z.of_nat n + 3)) by solve_byte.
  replace (Z.of_nat n + 3 - 3) with (Z.of_nat n) by lia.
  rewrite (to_uint8_small (Z.of_nat n)) by solve_byte.
  cbn zeta.
  destruct (process_data_loop payload 0 (data local) u2 [chk] Hrep2)
    as (d' & u3 & Hloop & Hrep3 & Hmap & _).
  fold n in Hloop, Hmap. rewrite Hloop.
  destruct (represents_pop u3 chk [] Hrep3) as [Hv Hrep4].
  destruct (UARTGetNextByte u3) as [validation u4]. simpl in Hv, Hrep4. subst validation.
  eexists _, u4. split; [reflexivity |]. simpl.
  split_and!; try done.
  rewrite validate_xor; simpl; unfold packet_payload; simpl; rewrite ?Hmap;
    try done; try solve_byte.
  rewrite HC.
  destruct (Z.eqb_spec (Z.lxor (xor_checksum cmd (Z.of_nat n + 3) payload) chk) 0)
    as [Hz | Hnz].
  - apply Z.lxor_eq in Hz. by rewrite decide_True.
  - rewrite decide_False; [done |]. intros ->. by rewrite Z.lxor_nilpotent in Hnz.
Qed.

(** X7. With a control packet size of 3, a transport that holds exactly
    one frame (command, frame length, payload of up to 252 bytes, the
    XOR of all of them) is decoded by [ProtocolProcessPacket] into a
    packet of status OK with that command and that payload, and is left
    empty. *)
Theorem whole_frame_is_decoded (uart : UART_t) (local : ProtocolPacket_t)
    (cmd : Z) (payload : list Z) :
  PROTOCOL_CONTROL_PACKET_SIZE = 3 → UART_RX_QUEUE_SIZE ≤ 256 →
  is_byte cmd → Forall is_byte payload → (length payload ≤ 252)%nat →
  represents uart
    (host_frame cmd payload
       (xor_checksum cmd (Z.of_nat (length payload) + 3) payload)) →
  ∃ packet uart',
    ProtocolProcessPacket uart local = (packet, uart')
    ∧ status packet = PROTOCOL_PACKET_STATUS_OK
    ∧ command packet = cmd
    ∧ dataSize packet = Z.of_nat (length payload)
    ∧ packet_payload packet = payload
    ∧ represents uart' [].
Proof.
  intros HC Hcap Hcmd Hp Hlen Hrep.
  destruct (decode_host_frame uart local cmd payload _ HC Hcap Hrep Hcmd Hp)
    as (packet & uart' & Hrun & Hempty & Hc & Hs & Hpay & Hst); [| done |].
  { apply is_byte_xor_checksum; [done | unfold is_byte; lia | done]. }
  exists packet, uart'. rewrite decide_True in Hst by done. done.
Qed.

(** X8. With a control packet size of 3, a whole frame whose last byte
    is not the XOR of the bytes before it gives a packet of status BAD,
    and the frame is taken out of the transport all the same: nothing of
    it is left for the next call. *)
Theorem bad_frame_is_consumed (uart : UART_t) (local : ProtocolPacket_t)
    (cmd : Z) (payload : list Z) (chk : Z) :
  PROTOCOL_CONTROL_PACKET_SIZE = 3 → UART_RX_QUEUE_SIZE ≤ 256 →
  is_byte cmd → Forall is_byte payload → is_byte chk →
  (length payload ≤ 252)%nat →
  chk ≠ xor_checksum cmd (Z.of_nat (length payload) + 3) payload →
  represents uart (host_frame cmd payload chk) →
  ∃ packet uart',
    ProtocolProcessPacket uart local = (packet, uart')
    ∧ status packet = PROTOCOL_PACKET_STATUS_BAD
    ∧ represents uart' [].
Proof.
  intros HC Hcap Hcmd Hp Hchk Hlen Hne Hrep.
  destruct (decode_host_frame uart local cmd payload chk HC Hcap Hrep Hcmd Hp Hchk Hlen)
    as (packet & uart' & Hrun & Hempty & _ & _ & _ & Hst).
  exists packet, uart'. rewrite decide_False in Hst by done. done.
Qed.

(** X9. With the payload at index 2 and a control packet size of 3, a
    string of up to 249 characters sent by [ProtocolSendStringPacket]
    and received without errors by an empty transport is decoded with
    status OK, the command, and the characters of the string without the
    terminator. *)
Theorem string_round_trip (uart : UART_t) (local : ProtocolPacket_t)
    (cmd : Z) (chars : list Z) :
  PROTOCOL_DATA_INDEX_BEGIN = 2 → PROTOCOL_CONTROL_PACKET_SIZE = 3 →
  UART_RX_QUEUE_SIZE ≤ 256 → represents uart [] →
  is_byte cmd → Forall is_byte chars → Forall (fun c => c ≠ 0) chars →
  (length chars ≤ 249)%nat →
  Z.of_nat (length chars) + 3 ≤ UART_RX_QUEUE_SIZE →
  ∃ packet uart',
    loopback_string uart cmd (chars ++ [0]) local = Some (packet, uart')
    ∧ status packet = PROTOCOL_PACKET_STATUS_OK
    ∧ command packet = cmd
    ∧ packet_payload packet = chars
    ∧ represents uart' [].
Proof.
  intros HD HC Hcap Hrep Hcmd Hbytes Hchars Hlen Hroom. unfold loopback_string.
  rewrite ProtocolSendStringPacket_frame by (done || lia). simpl.
  rewrite sent_bytes_tx.
  set (chk := xor_checksum cmd (Z.of_nat (length chars) + 3) chars).
  assert (Hchk : is_byte chk).
  { apply is_byte_xor_checksum; [done | unfold is_byte; lia | done]. }
  change (cmd :: Z.of_nat (length chars) + 3 :: chars ++ [chk])
    with (host_frame cmd chars chk).
  assert (Hrx : represents
                  (UARTReadData uart ((fun byte => mkRx 1 byte 0)
                                      <$> host_frame cmd chars chk))
                  (host_frame cmd chars chk)).
  { apply represents_receive; [done | |].
    - unfold host_frame. repeat apply Forall_cons_2; try done; [unfold is_byte; lia |].
      apply Forall_app_2; [done | by apply Forall_singleton].
    - unfold host_frame. simpl. rewrite length_app. simpl. lia. }
  destruct (decode_host_frame _ local cmd chars chk HC Hcap Hrx Hcmd Hbytes Hchk)
    as (packet & uart' & Hrun & Hempty & Hc & _ & Hpay & Hst); [lia |].
  exists packet, uart'. rewrite Hrun. rewrite decide_True in Hst by done. done.
Qed.

(** X10. With the payload at index 2 and a control packet size of 3,
    the empty answer ([data] null, [dataSize] 0) is a frame the decoder
    accepts: it comes back with status OK, the command, and no payload
    byte. *)
Theorem empty_answer_round_trip (uart : UART_t) (local : ProtocolPacket_t) (cmd : Z) :
  PROTOCOL_DATA_INDEX_BEGIN = 2 → PROTOCOL_CONTROL_PACKET_SIZE = 3 →
  3 ≤ UART_RX_QUEUE_SIZE ≤ 256 → represents uart [] → is_byte cmd →
  ∃ packet uart',
    loopback uart cmd [] local = Some (packet, uart')
    ∧ status packet = PROTOCOL_PACKET_STATUS_OK
    ∧ command packet = cmd
    ∧ dataSize packet = 0
    ∧ represents uart' [].
Proof.
  intros HD HC Hcap Hrep Hcmd. unfold loopback.
  change (Z.of_nat (length [])) with 0.
  rewrite ProtocolSendPacket_null_frame by done. simpl.
  rewrite sent_bytes_tx.
  change [cmd; 3; Z.lxor cmd 3] with (host_frame cmd [] (Z.lxor cmd 3)).
  assert (Hchk : is_byte (Z.lxor cmd 3)).
  { apply is_byte_lxor; [done | unfold is_byte; lia]. }
  assert (Hrx : represents
                  (UARTReadData uart ((fun byte => mkRx 1 byte 0)
                                      <$> host_frame cmd [] (Z.lxor cmd 3)))
                  (host_frame cmd [] (Z.lxor cmd 3))).
  { apply represents_receive; [done | | simpl; lia].
    repeat apply Forall_cons_2; try done; try apply Forall_nil_2;
      unfold is_byte; simpl; lia. }
  destruct (decode_host_frame _ local cmd [] (Z.lxor cmd 3) HC ltac:(lia) Hrx Hcmd)
    as (packet & uart' & Hrun & Hempty & Hc & Hs & _ & Hst);
    [done | done | simpl; lia |].
  exists packet, uart'. rewrite Hrun. rewrite decide_True in Hst by done. done.
Qed.

End CodecExtras.

(** Witness for [validation_accepts_only_the_checksum]: command 1,
    payload AA, control packet size 3. *)
Lemma validation_accepts_only_the_checksum_witness :
  (@ProtocolValidatePacket example_header3 checked_packet 175
   = PROTOCOL_PACKET_STATUS_OK
   ↔ 175 = xor_checksum 1 4 [170])
  ∧ (@ProtocolValidatePacket example_header3 checked_packet 175
     = PROTOCOL_PACKET_STATUS_BAD
     ↔ 175 ≠ xor_checksum 1 4 [170]).
Proof.
  apply (@validation_accepts_only_the_checksum example_header3 checked_packet 175).
  - unfold is_byte. simpl. lia.
  - unfold is_byte. simpl. lia.
  - unfold is_byte. simpl. lia.
  - apply Forall_singleton. vm_compute. split; [discriminate | reflexivity].
  - unfold is_byte. lia.
Defined.

(** Witness for [changed_payload_byte_is_detected]: AA turned into AB. *)
Lemma changed_payload_byte_is_detected_witness :
  @ProtocolValidatePacket example_header3
    (mkPacket PROTOCOL_PACKET_STATUS_BAD 1 1
       (data_set (data_of_list [170]) 0 171)) 175
  = PROTOCOL_PACKET_STATUS_BAD.
Proof.
  apply (@changed_payload_byte_is_detected example_header3 checked_packet
           175 0 171).
  - unfold is_byte. simpl. lia.
  - unfold is_byte. simpl. lia.
  - unfold is_byte. simpl. lia.
  - apply Forall_singleton. vm_compute. split; [discriminate | reflexivity].
  - unfold is_byte. lia.
  - simpl. lia.
  - unfold is_byte. lia.
  - vm_compute. discriminate.
  - reflexivity.
Defined.

(** Witness for [whole_frame_is_decoded]: the frame 01 05 AA BB 15. *)
Lemma whole_frame_is_decoded_witness :
  ∃ packet uart',
    @ProtocolProcessPacket example_header3
      (@UARTReadData example_header3 example_uart
         (rx_ok <$> [1; 5; 170; 187; 21]))
      example_local = (packet, uart')
    ∧ status packet = PROTOCOL_PACKET_STATUS_OK
    ∧ command packet = 1
    ∧ dataSize packet = 2
    ∧ packet_payload packet = [170; 187]
    ∧ represents (H := example_header3) uart' [].
Proof.
  apply (@whole_frame_is_decoded example_header3 _ example_local 1 [170; 187]).
  - reflexivity.
  - simpl. lia.
  - unfold is_byte. lia.
  - repeat constructor; unfold is_byte; lia.
  - simpl. lia.
  - apply (@represents_receive example_header3 example_uart [1; 5; 170; 187; 21]).
    + apply (@represents_reset example_header3); simpl; [lia | done].
    + repeat constructor; unfold is_byte; lia.
    + simpl. lia.
Defined.

(** Witness for [bad_frame_is_consumed]: the frame 01 05 AA BB 00. *)
Lemma bad_frame_is_consumed_witness :
  ∃ packet uart',
    @ProtocolProcessPacket example_header3
      (@UARTReadData example_header3 example_uart
         (rx_ok <$> [1; 5; 170; 187; 0]))
      example_local = (packet, uart')
    ∧ status packet = PROTOCOL_PACKET_STATUS_BAD
    ∧ represents (H := example_header3) uart' [].
Proof.
  apply (@bad_frame_is_consumed example_header3 _ example_local 1 [170; 187] 0).
  - reflexivity.
  - simpl. lia.
  - unfold is_byte. lia.
  - repeat constructor; unfold is_byte; lia.
  - unfold is_byte. lia.
  - simpl. lia.
  - vm_compute. discriminate.
  - apply (@represents_receive example_header3 example_uart [1; 5; 170; 187; 0]).
    + apply (@represents_reset example_header3); simpl; [lia | done].
    + repeat constructor; unfold is_byte; lia.
    + simpl. lia.
Defined.

(** Witness for [string_round_trip]: the string "Hi". *)
Lemma string_round_trip_witness :
  ∃ packet uart',
    @loopback_string example_header3 example_uart 1 [72; 105; 0] example_local
    = Some (packet, uart')
    ∧ status packet = PROTOCOL_PACKET_STATUS_OK
    ∧ command packet = 1
    ∧ packet_payload packet = [72; 105]
    ∧ represents (H := example_header3) uart' [].
Proof.
  apply (@string_round_trip example_header3 example_uart example_local 1 [72; 105]).
  - reflexivity.
  - reflexivity.
  - simpl. lia.
  - apply (@represents_reset example_header3); simpl; [lia | done].
  - unfold is_byte. lia.
  - repeat constructor; unfold is_byte; lia.
  - repeat constructor; lia.
  - simpl. lia.
  - simpl. lia.
Defined.

(** Witness for [empty_answer_round_trip]. *)
Lemma empty_answer_round_trip_witness :
  ∃ packet uart',
    @loopback example_header3 example_uart 4 [] example_local
    = Some (packet, uart')
    ∧ status packet = PROTOCOL_PACKET_STATUS_OK
    ∧ command packet = 4
    ∧ dataSize packet = 0
    ∧ represents (H := example_header3) uart' [].
Proof.
  apply (@empty_answer_round_trip example_header3 example_uart example_local 4).
  - reflexivity.
  - reflexivity.
  - simpl. lia.
  - apply (@represents_reset example_header3); simpl; [lia | done].
  - unfold is_byte. lia.
Defined.

Section CodecEdges.
Context `{Header}.

Lemma ProtocolSendPacket_null_data uart cmd data :
  ProtocolSendPacket uart cmd data 0 = ProtocolSendPacket uart cmd [] 0.
Proof. done. Qed.

(** X11. A string of exactly 255 characters is not sent: the length
    counter of [ProtocolSendStringPacket] is a [uint8_t], counting the
    terminator makes it wrap to 0, and what goes out is the empty
    answer. *)
Theorem string_of_255_characters_is_sent_empty (uart : UART_t) (cmd : Z)
    (chars rest : list Z) :
  Forall (fun c => c ≠ 0) chars → length chars = 255%nat →
  ProtocolSendStringPacket uart cmd (chars ++ 0 :: rest)
  = ProtocolSendPacket uart cmd [] 0.
Proof.
  intros Hchars Hlen. unfold ProtocolSendStringPacket.
  rewrite (cons_middle 0 chars rest), app_assoc.
  rewrite take_app_length' by (rewrite length_app; simpl; lia).
  rewrite string_length_chars by done. simpl.
  rewrite Hlen. change (to_uint8 (Z.of_nat 255 + 1)) with 0.
  apply ProtocolSendPacket_null_data.
Qed.

(** X12. With the payload at index 2 the empty string goes out as the
    very frame of the empty answer: command, length 3, checksum. *)
Theorem empty_string_is_the_empty_answer (uart : UART_t) (cmd : Z) :
  PROTOCOL_DATA_INDEX_BEGIN = 2 → is_byte cmd →
  ProtocolSendStringPacket uart cmd [0] = ProtocolSendPacket uart cmd [] 0
  ∧ ProtocolSendStringPacket uart cmd [0]
    = Some (uart_tx uart [cmd; 3; Z.lxor cmd 3]).
Proof.
  intros HD Hcmd.
  rewrite ProtocolSendPacket_null_frame by done.
  rewrite (ProtocolSendStringPacket_frame uart cmd []) by (done || simpl; lia).
  done.
Qed.

(** X13. With the payload at index 2, a payload of 254 or 255 bytes
    makes the length byte of [ProtocolSendPacket] wrap to 0 or 1: the
    local frame array is shorter than the two header bytes, and the
    function stores outside it. *)
Theorem oversized_payload_overflows_frame (uart : UART_t) (cmd : Z)
    (data : list Z) (dataSize : Z) :
  PROTOCOL_DATA_INDEX_BEGIN = 2 → 254 ≤ dataSize ≤ 255 →
  ProtocolSendPacket uart cmd data dataSize = None.
Proof.
  intros HD Hsize. unfold ProtocolSendPacket.
  destruct (Z.eqb_spec dataSize 0); [lia |]. rewrite HD.
  assert (dataSize = 254 ∨ dataSize = 255) as [-> | ->] by lia; done.
Qed.

Lemma zero_fill_other idx : ∀ (d : Z → Z) j,
  j ∉ idx → fold_left (fun d i => data_set d i 0) idx d j = d j.
Proof.
  induction idx as [| i idx IH]; intros d j Hj; simpl; [done |].
  apply not_elem_of_cons in Hj as [Hne Hj]. rewrite IH by done.
  unfold data_set. by destruct (Z.eqb_spec j i).
Qed.

Lemma zero_fill_visited idx : ∀ (d : Z → Z) j,
  j ∈ idx → fold_left (fun d i => data_set d i 0) idx d j = 0.
Proof.
  induction idx as [| i idx IH]; intros d j Hj; simpl; [by apply elem_of_nil in Hj |].
  destruct (decide (j ∈ idx)) as [Hin | Hout]; [by apply IH |].
  apply elem_of_cons in Hj as [-> | Hin]; [| done].
  rewrite zero_fill_other by done. unfold data_set. by rewrite Z.eqb_refl.
Qed.

(** The loop that fills [packet.data] on a transport that holds nothing:
    zeros, and the transport is not touched. *)
Lemma process_data_dry idx : ∀ d u,
  rxQueueSize u = 0 →
  fold_left process_data_byte idx (d, u)
  = (fold_left (fun d i => data_set d i 0) idx d, u).
Proof.
  induction idx as [| i idx IH]; intros d u Hdry; [done |].
  cbn [fold_left].
  assert (Hstep : process_data_byte (d, u) i = (data_set d i 0, u)).
  { unfold process_data_byte. by rewrite Hdry. }
  rewrite Hstep. by apply IH.
Qed.

Lemma process_data_keeps_write_cursor idx : ∀ d u,
  rxQueueWriteCursor (fold_left process_data_byte idx (d, u)).2
  = rxQueueWriteCursor u.
Proof.
  induction idx as [| i idx IH]; intros d u; [done |].
  cbn [fold_left].
  assert (Hstep : rxQueueWriteCursor (process_data_byte (d, u) i).2
                  = rxQueueWriteCursor u).
  { unfold process_data_byte. by destruct (0 <? rxQueueSize u). }
  destruct (process_data_byte (d, u) i) as [d1 u1]. by rewrite IH.
Qed.

(** The decoder only takes bytes out: whatever the transport holds, the
    write cursor stays where the receive path left it. *)
Lemma process_keeps_write_cursor uart local :
  rxQueueWriteCursor (ProtocolProcessPacket uart local).2
  = rxQueueWriteCursor uart.
Proof.
  assert (Hpop : ∀ u, rxQueueWriteCursor (UARTGetNextByte u).2
                      = rxQueueWriteCursor u) by done.
  unfold ProtocolProcessPacket.
  destruct (2 <=? rxQueueSize uart); [| done].
  destruct (rxQueueSize uart =? _); [| done].
  pose proof (Hpop uart) as H1. destruct (UARTGetNextByte uart) as [c u1].
  pose proof (Hpop u1) as H2. destruct (UARTGetNextByte u1) as [l u2].
  match goal with
  | |- context [fold_left process_data_byte ?idx (?d, ?u)] =>
      pose proof (process_data_keeps_write_cursor idx d u) as H3;
      destruct (fold_left process_data_byte idx (d, u)) as [d3 u3]
  end.
  pose proof (Hpop u3) as H4. destruct (UARTGetNextByte u3) as [v u4].
  simpl in *. congruence.
Qed.

(** X14. With a control packet size of 3, a transport that holds the
    two bytes command, 02 is decoded as a frame: the payload size 2 - 3
    wraps to 255, the payload is filled with zeros, and the checksum is
    popped from the empty transport, which moves the read cursor past
    the write cursor. The transport then holds nothing but is no longer
    in step: the next byte received is not stored where the next pop
    reads. *)
Theorem two_byte_frame_underflows (uart : UART_t) (local : ProtocolPacket_t) (cmd : Z) :
  PROTOCOL_CONTROL_PACKET_SIZE = 3 → 2 ≤ UART_RX_QUEUE_SIZE ≤ 256 →
  represents uart [cmd; 2] →
  ∃ packet uart',
    ProtocolProcessPacket uart local = (packet, uart')
    ∧ command packet = cmd
    ∧ dataSize packet = 255
    ∧ packet_payload packet = replicate 255 0
    ∧ rxQueueSize uart' = 0
    ∧ rxQueueWriteCursor uart' = rxQueueWriteCursor uart
    ∧ rxQueueReadCursor uart'
      ≠ rxQueueWriteCursor uart' `mod` UART_RX_QUEUE_SIZE
    ∧ ¬ represents uart' [].
Proof.
  intros HC Hcap Hrep.
  pose proof (process_keeps_write_cursor uart local) as Hwc.
  destruct (decode_header uart local cmd 2 [] Hrep) as (u2 & Hrep2 & Hrun); [lia | |].
  { destruct Hrep as [_ Hsz _ _ _ _ _]. by rewrite Hsz. }
  rewrite Hrun in Hwc |- *. clear Hrun.
  rewrite HC in Hwc |- *. change (to_uint8 (to_uint8 2 - 3)) with 255 in Hwc |- *.
  cbn zeta in Hwc |- *.
  pose proof Hrep2 as [_ Hsz2 _ Hr2 Hwr2 Hsync2 _]. simpl in Hsz2.
  rewrite process_data_dry in Hwc |- * by done.
  set (d' := fold_left _ (seqZ 0 255) (data local)) in *.
  unfold UARTGetNextByte in Hwc |- *. rewrite Hsz2 in Hwc |- *.
  simpl in Hwc |- *.
  eexists _, _. split; [reflexivity |]. simpl.
  assert (Hcursor :
    (if UART_RX_QUEUE_SIZE <=? rxQueueReadCursor u2 + 1 then 0
     else rxQueueReadCursor u2 + 1)
    ≠ rxQueueWriteCursor u2 `mod` UART_RX_QUEUE_SIZE).
  { rewrite Hsync2, Hsz2, Z.add_0_r, Z.mod_small by lia.
    destruct (Z.leb_spec UART_RX_QUEUE_SIZE (rxQueueReadCursor u2 + 1)); lia. }
  split_and!; try done.
  intros [_ _ _ _ _ Hsync _]. simpl in Hsync.
  rewrite Z.add_0_r, (Z.mod_small (if _ <=? _ then _ else _)) in Hsync.
  - by apply Hcursor.
  - destruct (Z.leb_spec UART_RX_QUEUE_SIZE (rxQueueReadCursor u2 + 1)); lia.
Qed.

End CodecEdges.

(** Witness for [string_of_255_characters_is_sent_empty]: 255 times the
    letter A. *)
Lemma string_of_255_characters_is_sent_empty_witness :
  @ProtocolSendStringPacket example_header example_uart 1
    (replicate 255 65 ++ [0])
  = @ProtocolSendPacket example_header example_uart 1 [] 0.
Proof.
  apply (@string_of_255_characters_is_sent_empty example_header example_uart 1
           (replicate 255 65) []).
  - apply Forall_replicate. lia.
  - apply length_replicate.
Defined.

(** Witness for [empty_string_is_the_empty_answer]. *)
Lemma empty_string_is_the_empty_answer_witness :
  @ProtocolSendStringPacket example_header example_uart 1 [0]
  = @ProtocolSendPacket example_header example_uart 1 [] 0
  ∧ @ProtocolSendStringPacket example_header example_uart 1 [0]
    = Some (uart_tx example_uart [1; 3; 2]).
Proof.
  apply (@empty_string_is_the_empty_answer example_header example_uart 1).
  - reflexivity.
  - unfold is_byte. lia.
Defined.

(** Witness for [oversized_payload_overflows_frame]: 254 bytes. *)
Lemma oversized_payload_overflows_frame_witness :
  @ProtocolSendPacket example_header example_uart 1 (replicate 254 170) 254
  = None.
Proof.
  apply (@oversized_payload_overflows_frame example_header example_uart 1
           (replicate 254 170) 254).
  - reflexivity.
  - lia.
Defined.

(** Witness for [two_byte_frame_underflows]: the two bytes 01 02. *)
Lemma two_byte_frame_underflows_witness :
  let uart := @UARTReadData example_header3 example_uart (rx_ok <$> [1; 2]) in
  ∃ packet uart',
    @ProtocolProcessPacket example_header3 uart example_local = (packet, uart')
    ∧ command packet = 1
    ∧ dataSize packet = 255
    ∧ packet_payload packet = replicate 255 0
    ∧ rxQueueSize uart' = 0
    ∧ rxQueueWriteCursor uart' = rxQueueWriteCursor uart
    ∧ rxQueueReadCursor uart' ≠ rxQueueWriteCursor uart' `mod` 255
    ∧ ¬ represents (H := example_header3) uart' [].
Proof.
  intros uart.
  apply (@two_byte_frame_underflows example_header3 uart example_local 1).
  - reflexivity.
  - simpl. lia.
  - apply (@represents_receive example_header3 example_uart [1; 2]).
    + apply (@represents_reset example_header3); simpl; [lia | done].
    + repeat constructor; unfold is_byte; lia.
    + simpl. lia.
Defined.

(** ** The flash engine *)

Section FlashExtras.
Context `{Header}.

Lemma FlashErasePage_blank flash page a :
  words flash !! a = None → words (FlashErasePage flash page) !! a = None.
Proof.
  intros Hnone. unfold FlashErasePage. simpl.
  apply map_lookup_filter_None. by left.
Qed.

Lemma FlashWriteDWORDAddress_other flash address data1 data2 a :
  a ≠ address → a ≠ address + 2 →
  words (FlashWriteDWORDAddress flash address data1 data2).2 !! a
  = words flash !! a.
Proof.
  intros H1 H2. unfold FlashWriteDWORDAddress. case_decide; simpl; [done |].
  by rewrite !lookup_insert_ne by done.
Qed.

Lemma erase_words_inv_step start st :
  0 < page_span →
  BOOTLOADER_APPLICATION_END + page_span < 4294967296 →
  BOOTLOADER_BOOTLOADER_START `mod` page_span = 0 →
  erase_words_inv start st → erase_cond st = true →
  erase_words_inv start (erase_body st).
Proof.
  intros Hspan Hmax Halign (Hinv & Hboot & Hblank & Hdone) Hcond.
  split; [by apply erase_inv_step |].
  destruct Hinv as (Hrange & Hmod & _).
  destruct st as [address flash]. unfold erase_cond in Hcond. simpl in *.
  apply Z.leb_le in Hcond.
  unfold erase_body. fold page_span.
  rewrite to_uint32_small by lia. simpl.
  destruct ((address <? BOOTLOADER_BOOTLOADER_START)
            || (BOOTLOADER_APPLICATION_START <=? address)) eqn:Hout.
  - split_and!.
    + intros a Ha. rewrite FlashErasePage_outside; [by apply Hboot |].
      fold page_span.
      assert (address < BOOTLOADER_BOOTLOADER_START
              ∨ BOOTLOADER_APPLICATION_START ≤ address) as [Hlow | Hhigh] by lia;
        [| lia].
      apply Z.mod_divide in Halign as [k Hk]; [| lia].
      apply Z.mod_divide in Hmod as [j Hj]; [| lia].
      assert (j < k) by nia.
      assert ((j + 1) * page_span ≤ k * page_span)
        by (apply Z.mul_le_mono_nonneg_r; lia).
      lia.
    + intros a Ha. by apply FlashErasePage_blank, Hblank.
    + intros page a Hpage Hpmod Hside Ha.
      destruct (decide (page = address)) as [-> | Hne].
      * apply FlashErasePage_inside. by fold page_span.
      * apply FlashErasePage_blank. apply (Hdone page a); try done.
        apply Z.mod_divide in Hpmod as [k Hk]; [| lia].
        apply Z.mod_divide in Hmod as [j Hj]; [| lia].
        assert (k < j + 1) by nia. assert (k ≠ j) by (intros ->; lia).
        assert (k + 1 ≤ j) by lia.
        assert ((k + 1) * page_span ≤ j * page_span)
          by (apply Z.mul_le_mono_nonneg_r; lia).
        lia.
  - split_and!; try done.
    intros page a Hpage Hpmod Hside Ha.
    apply (Hdone page a); try done.
    destruct (decide (page = address)) as [-> | Hne]; [lia |].
    apply Z.mod_divide in Hpmod as [k Hk]; [| lia].
    apply Z.mod_divide in Hmod as [j Hj]; [| lia].
    assert (k < j + 1) by nia. assert (k ≠ j) by (intros ->; lia).
    assert (k + 1 ≤ j) by lia.
    assert ((k + 1) * page_span ≤ j * page_span)
      by (apply Z.mul_le_mono_nonneg_r; lia).
    lia.
Qed.

(** The words of the flash after [ProtocolFlashErase]. *)
Lemma ProtocolFlashErase_words fuel flash flash' :
  0 < page_span → 0 ≤ BOOTLOADER_APPLICATION_END →
  BOOTLOADER_APPLICATION_END + page_span < 4294967296 →
  0 < BOOTLOADER_BOOTLOADER_START →
  BOOTLOADER_BOOTLOADER_START `mod` page_span = 0 →
  ProtocolFlashErase fuel flash = Some flash' →
  (∀ a, BOOTLOADER_BOOTLOADER_START ≤ a < BOOTLOADER_APPLICATION_START →
        a ≠ 2 → words flash' !! a = words flash !! a)
  ∧ (∀ a, 0 ≤ a < page_span → a ≠ 0 → a ≠ 2 → words flash' !! a = None)
  ∧ (∀ page a,
       page_span ≤ page ≤ BOOTLOADER_APPLICATION_END →
       page `mod` page_span = 0 →
       page < BOOTLOADER_BOOTLOADER_START ∨ BOOTLOADER_APPLICATION_START ≤ page →
       page ≤ a < page + page_span →
       words flash' !! a = None).
Proof.
  intros Hspan Hend Hmax Hboot Halign Hrun.
  assert (Hboot' : page_span ≤ BOOTLOADER_BOOTLOADER_START).
  { apply Z.mod_divide in Halign as [k Hk]; [| lia].
    assert (0 < k) by nia. nia. }
  unfold ProtocolFlashErase in Hrun. fold page_span reset_instruction in Hrun.
  rewrite Z.add_0_l, (to_uint32_small page_span) in Hrun by lia.
  set (start := (FlashWriteDWORDAddress (FlashErasePage flash 0) 0
                   reset_instruction 0).2) in *.
  destruct (while fuel erase_cond erase_body (page_span, start))
    as [[address last] |] eqn:Hloop; [| done].
  simpl in Hrun. simplify_eq.
  assert (Hinv : erase_words_inv start (page_span, start)).
  { split_and!; try done.
    - unfold erase_inv. simpl. split_and!; try done; try lia.
      + apply Z_mod_same_full.
      + exists []. by rewrite app_nil_r.
    - simpl. intros. lia. }
  destruct (while_invariant erase_cond erase_body (erase_words_inv start)
              (fun st Hst Hc => erase_words_inv_step start st Hspan Hmax Halign Hst Hc)
              fuel _ _ Hinv Hloop)
    as [(_ & Hkeep & Hblank & Hdone) Hexit].
  unfold erase_cond in Hexit. simpl in *. apply Z.leb_gt in Hexit.
  split_and!.
  - intros a Ha Hne2. rewrite Hkeep by done. unfold start.
    rewrite FlashWriteDWORDAddress_other by lia.
    apply FlashErasePage_outside. fold page_span. lia.
  - intros a Ha Hne0 Hne2. apply Hblank. unfold start.
    rewrite FlashWriteDWORDAddress_other by lia.
    apply FlashErasePage_inside. fold page_span. lia.
  - intros page a Hpage Hmod Hside Ha. apply (Hdone page a); try done. lia.
Qed.

(** X15. When the erase blocks are aligned with the start of the
    bootloader, [ProtocolFlashErase] changes no word of
    [BOOTLOADER_START, APPLICATION_START): what the bootloader region
    held before is what it holds afterwards. *)
Theorem erase_all_keeps_bootloader_words (fuel : nat) (flash : Flash) :
  0 < page_span → 0 ≤ BOOTLOADER_APPLICATION_END →
  BOOTLOADER_APPLICATION_END + page_span < 4294967296 →
  2 < BOOTLOADER_BOOTLOADER_START →
  BOOTLOADER_BOOTLOADER_START `mod` page_span = 0 →
  (Z.to_nat (BOOTLOADER_APPLICATION_END / page_span) ≤ fuel)%nat →
  ∃ flash',
    ProtocolFlashErase fuel flash = Some flash'
    ∧ ∀ a, BOOTLOADER_BOOTLOADER_START ≤ a < BOOTLOADER_APPLICATION_START →
           words flash' !! a = words flash !! a.
Proof.
  intros Hspan Hend Hmax Hboot Halign Hfuel.
  destruct (ProtocolFlashErase_spec fuel flash Hspan Hend Hmax Hfuel)
    as (flash' & _ & Hrun & _).
  exists flash'. split; [done |]. intros a Ha.
  destruct (ProtocolFlashErase_words fuel flash flash') as (Hkeep & _); try done; [lia |].
  apply Hkeep; [done | lia].
Qed.

(** X16. When the erase blocks are aligned with both ends of the
    bootloader, [ProtocolFlashErase] leaves every address from 0 to
    APPLICATION_END outside the bootloader blank, but for the two words
    of the reset vector at addresses 0 and 2. *)
Theorem erase_all_blanks_the_rest (fuel : nat) (flash : Flash) :
  0 < page_span → 0 ≤ BOOTLOADER_APPLICATION_END →
  BOOTLOADER_APPLICATION_END + page_span < 4294967296 →
  0 < BOOTLOADER_BOOTLOADER_START →
  BOOTLOADER_BOOTLOADER_START `mod` page_span = 0 →
  BOOTLOADER_APPLICATION_START `mod` page_span = 0 →
  (Z.to_nat (BOOTLOADER_APPLICATION_END / page_span) ≤ fuel)%nat →
  ∃ flash',
    ProtocolFlashErase fuel flash = Some flash'
    ∧ ∀ a, 0 ≤ a ≤ BOOTLOADER_APPLICATION_END →
           ¬ (BOOTLOADER_BOOTLOADER_START ≤ a < BOOTLOADER_APPLICATION_START) →
           a ≠ 0 → a ≠ 2 →
           words flash' !! a = None.
Proof.
  intros Hspan Hend Hmax Hboot Halign Halign' Hfuel.
  destruct (ProtocolFlashErase_spec fuel flash Hspan Hend Hmax Hfuel)
    as (flash' & _ & Hrun & _).
  exists flash'. split; [done |]. intros a Ha Hout Hne0 Hne2.
  destruct (ProtocolFlashErase_words fuel flash flash')
    as (_ & Hfirst & Hrest); try done.
  destruct (decide (a < page_span)) as [Hlow | Hhigh]; [apply Hfirst; lia |].
  pose proof (Z.mod_pos_bound a page_span Hspan) as Hrem.
  assert (Hnz : page_span ≠ 0) by lia.
  pose proof (Z.div_mod a page_span Hnz) as Hdiv.
  apply (Hrest (page_span * (a `div` page_span)) a).
  - assert (1 ≤ a `div` page_span) by (apply Z.div_le_lower_bound; lia). nia.
  - rewrite Z.mul_comm. apply Z_mod_mult.
  - destruct (decide (a < BOOTLOADER_BOOTLOADER_START)) as [Hl | Hr]; [left; lia |].
    right. assert (BOOTLOADER_APPLICATION_START ≤ a) by lia.
    apply Z.mod_divide in Halign' as [k Hk]; [| lia].
    assert (k ≤ a `div` page_span).
    { apply Z.div_le_lower_bound; lia. }
    nia.
  - lia.
Qed.

Lemma write_body_writes packet st :
  protected_address (st_address st) = false →
  write_body packet st
  = let r := FlashWriteDWORDAddress (st_flash st) (st_address st)
               (payload_word packet (st_index st))
               (payload_word packet (st_index st + 3)) in
    mkStride (to_uint32 (st_address st + 4)) (to_uint8 (st_index st + 6)) r.1 r.2.
Proof.
  intros Hp. rewrite write_body_unprotected by done. cbn zeta.
  unfold payload_word.
  by replace (st_index st + 3 + 1) with (st_index st + 4) by lia;
     replace (st_index st + 3 + 2) with (st_index st + 5) by lia.
Qed.

(** A run of [n] strides that all write: the loop goes on from the state
    after them, and this is what they have done to the flash. *)
Lemma write_strides packet (n : nat) : ∀ st fuel,
  st_flashRes st = 1 → 0 ≤ st_index st → 0 ≤ st_address st →
  st_index st + 6 * Z.of_nat n ≤ 255 →
  st_index st + 6 * Z.of_nat n ≤ dataSize packet + 5 →
  st_address st + 4 * Z.of_nat n < 4294967296 →
  (∀ i, 0 ≤ i < Z.of_nat n →
        protected_address (st_address st + 4 * i) = false
        ∧ st_address st + 4 * i ∉ worn (st_flash st)) →
  ∃ flash',
    while (n + fuel) (write_cond packet) (write_body packet) st
    = while fuel (write_cond packet) (write_body packet)
        (mkStride (st_address st + 4 * Z.of_nat n)
                  (st_index st + 6 * Z.of_nat n) 1 flash')
    ∧ worn flash' = worn (st_flash st)
    ∧ issued flash'
      = issued (st_flash st)
        ++ (stride_write packet (st_address st) (st_index st)
              <$> seqZ 0 (Z.of_nat n))
    ∧ (∀ i, 0 ≤ i < Z.of_nat n →
            words flash' !! (st_address st + 4 * i)
            = Some (payload_word packet (st_index st + 6 * i))
            ∧ words flash' !! (st_address st + 4 * i + 2)
              = Some (payload_word packet (st_index st + 6 * i + 3)))
    ∧ (∀ a, a < st_address st ∨ st_address st + 4 * Z.of_nat n ≤ a →
            words flash' !! a = words (st_flash st) !! a).
Proof.
  induction n as [| n IH]; intros st fuel Hres Hindex Haddress Hbyte Hsize Hmax Hgood.
  - exists (st_flash st). rewrite !Z.mul_0_r, !Z.add_0_r, app_nil_r.
    destruct st as [a i r f]. simpl in *. subst r.
    split_and!; try done. intros i' Hi'. lia.
  - destruct (Hgood 0 ltac:(lia)) as [Hp Hworn]. rewrite Z.mul_0_r, Z.add_0_r in Hp, Hworn.
    assert (Hcond : write_cond packet st = true).
    { unfold write_cond. rewrite Hres. simpl. rewrite andb_true_r. lia. }
    destruct (FlashWriteDWORDAddress_ok (st_flash st) (st_address st)
                (payload_word packet (st_index st))
                (payload_word packet (st_index st + 3)) Hworn)
      as (Hone & Hw1 & Hw2).
    set (flash1 := (FlashWriteDWORDAddress (st_flash st) (st_address st)
                      (payload_word packet (st_index st))
                      (payload_word packet (st_index st + 3))).2) in *.
    assert (Hbody : write_body packet st
                    = mkStride (st_address st + 4) (st_index st + 6) 1 flash1).
    { rewrite write_body_writes by done. cbn zeta. rewrite Hone.
      by rewrite to_uint32_small, to_uint8_small by solve_byte. }
    destruct (IH (mkStride (st_address st + 4) (st_index st + 6) 1 flash1) fuel)
      as (flash' & Hrun & Hworn' & Hissued & Hwritten & Hother);
      cbn [st_address st_index st_flashRes st_flash]; try done; try lia.
    { intros i Hi. unfold flash1. rewrite FlashWriteDWORDAddress_worn.
      replace (st_address st + 4 + 4 * i) with (st_address st + 4 * (i + 1)) by lia.
      apply Hgood. lia. }
    cbn [st_address st_index st_flashRes st_flash] in *.
    exists flash'. split_and!.
    + cbn [Nat.add while]. rewrite Hcond, Hbody, Hrun. f_equal. f_equal; lia.
    + rewrite Hworn'. unfold flash1. by rewrite FlashWriteDWORDAddress_worn.
    + rewrite Hissued. unfold flash1.
      rewrite FlashWriteDWORDAddress_issued, <- app_assoc. f_equal.
      rewrite (seqZ_cons 0 (Z.of_nat (S n))) by lia. rewrite fmap_cons.
      cbn [app]. f_equal.
      { unfold stride_write. by rewrite !Z.mul_0_r, !Z.add_0_r. }
      replace (Z.pred (Z.of_nat (S n))) with (Z.of_nat n) by lia.
      change (Z.succ 0) with (1 + 0). rewrite <- (fmap_add_seqZ 1 0).
      rewrite <- list_fmap_compose. apply list_fmap_ext. intros _ i _. simpl.
      unfold stride_write. f_equal; [lia | f_equal; lia | f_equal; lia].
    + intros i Hi. destruct (decide (i = 0)) as [-> | Hne].
      * rewrite !Z.mul_0_r, !Z.add_0_r. rewrite !Hother by lia. done.
      * destruct (Hwritten (i - 1) ltac:(lia)) as [H1 H2].
        replace (st_address st + 4 + 4 * (i - 1)) with (st_address st + 4 * i) in H1, H2 by lia.
        replace (st_index st + 6 + 6 * (i - 1)) with (st_index st + 6 * i) in H1, H2 by lia.
        done.
    + intros a Ha. rewrite Hother by lia. unfold flash1.
      apply FlashWriteDWORDAddress_other; lia.
Qed.

Lemma payload_word_range packet index : 0 ≤ payload_word packet index < 4294967296.
Proof. unfold payload_word, word24, to_uint32. apply Z.mod_pos_bound. lia. Qed.

(** The three steps of a write request of up to 250 bytes: Erase-all for
    address 0, the stride loop, the answer. *)
Lemma ProtocolFlashWrite_run fuel uart flash packet :
  0 < page_span → 0 ≤ BOOTLOADER_APPLICATION_END →
  BOOTLOADER_APPLICATION_END + page_span < 4294967296 →
  dataSize packet ≤ 250 →
  (Z.to_nat (dataSize packet) ≤ fuel)%nat →
  (Z.to_nat (BOOTLOADER_APPLICATION_END / page_span) ≤ fuel)%nat →
  ∃ flash1 st,
    (if payload_word packet 0 =? 0 then ProtocolFlashErase fuel flash
     else Some flash) = Some flash1
    ∧ while fuel (write_cond packet) (write_body packet)
        (mkStride (payload_word packet 0) 3 1 flash1) = Some st
    ∧ ProtocolFlashWrite fuel uart flash packet
      = (sent ← ProtocolSendPacket uart
                  (if st_flashRes st =? 1
                   then PROTOCOL_CMD_WRITE_DATA_RESPONSE_OK
                   else PROTOCOL_CMD_WRITE_DATA_RESPONSE_ERR) [] 0;
         Some (sent, st_flash st)).
Proof.
  intros Hspan Hend Hmax Hsize Hfuel1 Hfuel2. unfold ProtocolFlashWrite.
  change (word24 (data packet 0) (data packet 1) (data packet 2))
    with (payload_word packet 0).
  set (address := payload_word packet 0).
  assert (Hflash : ∃ flash1, (if address =? 0 then ProtocolFlashErase fuel flash
                              else Some flash) = Some flash1).
  { destruct (address =? 0); [| by eexists].
    destruct (ProtocolFlashErase_spec fuel flash Hspan Hend Hmax Hfuel2)
      as (flash1 & _ & -> & _). by eexists. }
  destruct Hflash as [flash1 Hflash]. rewrite Hflash. simpl.
  destruct (write_loop_terminates packet fuel (mkStride address 3 1 flash1))
    as [final Hloop]; [done | simpl; lia | simpl; lia |].
  rewrite Hloop. simpl.
  exists flash1, final. split; [done |]. split; [done |].
  by destruct (st_flashRes final =? 1).
Qed.

(** The stride loop changes no word below address 4 and no word of the
    bootloader but its first. *)
Lemma write_loop_spares packet fuel st st' :
  while fuel (write_cond packet) (write_body packet) st = Some st' →
  ∀ a, a < 4
       ∨ BOOTLOADER_BOOTLOADER_START + 2 ≤ a < BOOTLOADER_APPLICATION_START →
       words (st_flash st') !! a = words (st_flash st) !! a.
Proof.
  intros Hrun.
  apply (while_invariant (write_cond packet) (write_body packet)
           (fun s => ∀ a, a < 4
                          ∨ BOOTLOADER_BOOTLOADER_START + 2 ≤ a
                            < BOOTLOADER_APPLICATION_START →
                          words (st_flash s) !! a = words (st_flash st) !! a))
    in Hrun as [Hinv _]; [done | | done].
  intros s Hs _ a Ha.
  destruct (protected_address (st_address s)) eqn:Hp.
  - rewrite write_body_protected by done. by apply Hs.
  - rewrite write_body_unprotected by done. cbn zeta. simpl.
    apply not_true_iff_false in Hp. rewrite protected_address_spec in Hp.
    rewrite FlashWriteDWORDAddress_other by lia. by apply Hs.
Qed.

(** X17. With the payload at index 2, a write request of up to 250
    bytes is answered with exactly one frame of three bytes: the answer
    opcode, which is WRITE_DATA_RESPONSE_OK or WRITE_DATA_RESPONSE_ERR,
    the length 3, and the XOR of the two. Nothing else is transmitted,
    and the receive queue is left as it was. *)
Theorem write_request_is_answered (fuel : nat) (uart : UART_t) (flash : Flash)
    (packet : ProtocolPacket_t) :
  PROTOCOL_DATA_INDEX_BEGIN = 2 →
  is_byte PROTOCOL_CMD_WRITE_DATA_RESPONSE_OK →
  is_byte PROTOCOL_CMD_WRITE_DATA_RESPONSE_ERR →
  0 < page_span → 0 ≤ BOOTLOADER_APPLICATION_END →
  BOOTLOADER_APPLICATION_END + page_span < 4294967296 →
  dataSize packet ≤ 250 →
  (Z.to_nat (dataSize packet) ≤ fuel)%nat →
  (Z.to_nat (BOOTLOADER_APPLICATION_END / page_span) ≤ fuel)%nat →
  ∃ uart' flash' answer,
    ProtocolFlashWrite fuel uart flash packet = Some (uart', flash')
    ∧ uart' = uart_tx uart [answer; 3; Z.lxor answer 3]
    ∧ sent_bytes uart uart' = [answer; 3; Z.lxor answer 3]
    ∧ (answer = PROTOCOL_CMD_WRITE_DATA_RESPONSE_OK
       ∨ answer = PROTOCOL_CMD_WRITE_DATA_RESPONSE_ERR)
    ∧ worn flash' = worn flash.
Proof.
  intros HD Hok Herr Hspan Hend Hmax Hsize Hfuel1 Hfuel2.
  destruct (ProtocolFlashWrite_run fuel uart flash packet)
    as (flash1 & st & Hflash & Hloop & Hrun); try done.
  set (answer := if st_flashRes st =? 1
                 then PROTOCOL_CMD_WRITE_DATA_RESPONSE_OK
                 else PROTOCOL_CMD_WRITE_DATA_RESPONSE_ERR) in *.
  assert (Hanswer : is_byte answer).
  { unfold answer. by destruct (st_flashRes st =? 1). }
  rewrite (ProtocolSendPacket_null_frame uart answer HD Hanswer) in Hrun.
  simpl in Hrun.
  eexists _, _, answer. split; [exact Hrun |]. split; [done |]. split.
  { apply sent_bytes_tx. }
  split.
  - unfold answer. destruct (st_flashRes st =? 1); [by left | by right].
  - apply (while_invariant (write_cond packet) (write_body packet)
             (fun s => worn (st_flash s) = worn flash)) in Hloop as [Hinv _];
      [done | |].
    + intros s Hs _. destruct (protected_address (st_address s)) eqn:Hp.
      * by rewrite write_body_protected.
      * rewrite write_body_unprotected by done. cbn zeta. simpl.
        by rewrite FlashWriteDWORDAddress_worn.
    + simpl. destruct (payload_word packet 0 =? 0); [| by simplify_eq].
      destruct (ProtocolFlashErase_spec fuel flash Hspan Hend Hmax Hfuel2)
        as (flash2 & _ & Hrun2 & _ & _ & Hworn & _).
      by simplify_eq.
Qed.

(** X18. When the erase blocks are aligned with the start of the
    bootloader, a write request of up to 250 bytes, whatever its address
    and payload, changes no word of the bootloader from its second
    instruction word on. *)
Theorem write_request_spares_bootloader (fuel : nat) (uart : UART_t)
    (flash : Flash) (packet : ProtocolPacket_t) :
  2 ≤ PROTOCOL_DATA_INDEX_BEGIN ≤ 254 →
  0 < page_span → 0 ≤ BOOTLOADER_APPLICATION_END →
  BOOTLOADER_APPLICATION_END + page_span < 4294967296 →
  0 < BOOTLOADER_BOOTLOADER_START →
  BOOTLOADER_BOOTLOADER_START `mod` page_span = 0 →
  dataSize packet ≤ 250 →
  (Z.to_nat (dataSize packet) ≤ fuel)%nat →
  (Z.to_nat (BOOTLOADER_APPLICATION_END / page_span) ≤ fuel)%nat →
  ∃ uart' flash',
    ProtocolFlashWrite fuel uart flash packet = Some (uart', flash')
    ∧ ∀ a, BOOTLOADER_BOOTLOADER_START + 2 ≤ a < BOOTLOADER_APPLICATION_START →
           words flash' !! a = words flash !! a.
Proof.
  intros HD Hspan Hend Hmax Hboot Halign Hsize Hfuel1 Hfuel2.
  destruct (ProtocolFlashWrite_run fuel uart flash packet)
    as (flash1 & st & Hflash & Hloop & Hrun); try done.
  destruct (ProtocolSendPacket_null uart
              (if st_flashRes st =? 1
               then PROTOCOL_CMD_WRITE_DATA_RESPONSE_OK
               else PROTOCOL_CMD_WRITE_DATA_RESPONSE_ERR) HD) as [rest Hsend].
  rewrite Hsend in Hrun. simpl in Hrun.
  eexists _, _. split; [exact Hrun |]. intros a Ha.
  rewrite (write_loop_spares packet fuel _ st Hloop) by (right; lia). simpl.
  destruct (payload_word packet 0 =? 0); [| by simplify_eq].
  destruct (ProtocolFlashErase_words fuel flash flash1) as (Hkeep & _); try done.
  apply Hkeep; lia.
Qed.

(** X19. A write request for an address other than 0 whose payload is
    [k] whole strides, none of them aimed at a protected or a failing
    address: the flash gets the [k] dual words of the payload in order,
    three payload bytes to an instruction word, at [address],
    [address + 2], ...; nothing else changes, nothing is erased, and the
    answer starts with WRITE_DATA_RESPONSE_OK. *)
Theorem write_request_stores_payload (fuel : nat) (uart : UART_t)
    (flash : Flash) (packet : ProtocolPacket_t) (k : nat) :
  2 ≤ PROTOCOL_DATA_INDEX_BEGIN ≤ 254 →
  payload_word packet 0 ≠ 0 →
  dataSize packet = 3 + 6 * Z.of_nat k → dataSize packet ≤ 255 →
  payload_word packet 0 + 4 * Z.of_nat k < 4294967296 →
  (∀ i, 0 ≤ i < Z.of_nat k →
        protected_address (payload_word packet 0 + 4 * i) = false
        ∧ payload_word packet 0 + 4 * i ∉ worn flash) →
  (k ≤ fuel)%nat →
  ∃ uart' flash' rest,
    ProtocolFlashWrite fuel uart flash packet = Some (uart', flash')
    ∧ uart' = uart_tx uart (PROTOCOL_CMD_WRITE_DATA_RESPONSE_OK :: rest)
    ∧ new_ops flash flash'
      = stride_write packet (payload_word packet 0) 3 <$> seqZ 0 (Z.of_nat k)
    ∧ (∀ i, 0 ≤ i < Z.of_nat k →
            words flash' !! (payload_word packet 0 + 4 * i)
            = Some (payload_word packet (3 + 6 * i))
            ∧ words flash' !! (payload_word packet 0 + 4 * i + 2)
              = Some (payload_word packet (3 + 6 * i + 3)))
    ∧ (∀ a, a < payload_word packet 0
            ∨ payload_word packet 0 + 4 * Z.of_nat k ≤ a →
            words flash' !! a = words flash !! a).
Proof.
  intros HD Hne Hsize Hbyte Hmax Hgood Hfuel.
  pose proof (payload_word_range packet 0) as Hrange.
  destruct (write_strides packet k (mkStride (payload_word packet 0) 3 1 flash)
              (fuel - k)%nat)
    as (flash' & Hloop & Hworn & Hissued & Hwritten & Hother);
    cbn [st_address st_index st_flashRes st_flash]; try done; try lia.
  cbn [st_address st_index st_flashRes st_flash] in *.
  replace (k + (fuel - k))%nat with fuel in Hloop by lia.
  assert (Hend : while (fuel - k) (write_cond packet) (write_body packet)
                   (mkStride (payload_word packet 0 + 4 * Z.of_nat k)
                      (3 + 6 * Z.of_nat k) 1 flash')
                 = Some (mkStride (payload_word packet 0 + 4 * Z.of_nat k)
                           (3 + 6 * Z.of_nat k) 1 flash')).
  { assert (Hc : write_cond packet
                   (mkStride (payload_word packet 0 + 4 * Z.of_nat k)
                      (3 + 6 * Z.of_nat k) 1 flash') = false).
    { unfold write_cond. simpl. rewrite Hsize. lia. }
    destruct (fuel - k)%nat; simpl; by rewrite Hc. }
  rewrite Hend in Hloop.
  destruct (ProtocolSendPacket_null uart PROTOCOL_CMD_WRITE_DATA_RESPONSE_OK HD)
    as [rest Hsend].
  exists (uart_tx uart (PROTOCOL_CMD_WRITE_DATA_RESPONSE_OK :: rest)), flash', rest.
  split_and!; try done.
  - unfold ProtocolFlashWrite.
    change (word24 (data packet 0) (data packet 1) (data packet 2))
      with (payload_word packet 0).
    rewrite (proj2 (Z.eqb_neq _ _) Hne). simpl. rewrite Hloop. simpl.
    by rewrite Hsend.
  - unfold new_ops. by rewrite Hissued, drop_app_length.
Qed.

(** X20. A write request for an address other than 0 whose stride
    number [k] is the first one aimed at a failing address: the [k]
    strides before it are in the flash, the failing one is issued and
    changes nothing, no further stride is issued although payload is
    left, and the answer starts with WRITE_DATA_RESPONSE_ERR. *)
Theorem write_request_stops_at_first_failure (fuel : nat) (uart : UART_t)
    (flash : Flash) (packet : ProtocolPacket_t) (k : nat) :
  2 ≤ PROTOCOL_DATA_INDEX_BEGIN ≤ 254 →
  payload_word packet 0 ≠ 0 →
  3 + 6 * Z.of_nat k < dataSize packet → dataSize packet ≤ 255 →
  payload_word packet 0 + 4 * Z.of_nat k < 4294967296 →
  (∀ i, 0 ≤ i < Z.of_nat k →
        protected_address (payload_word packet 0 + 4 * i) = false
        ∧ payload_word packet 0 + 4 * i ∉ worn flash) →
  protected_address (payload_word packet 0 + 4 * Z.of_nat k) = false →
  payload_word packet 0 + 4 * Z.of_nat k ∈ worn flash →
  (k < fuel)%nat →
  ∃ uart' flash' rest,
    ProtocolFlashWrite fuel uart flash packet = Some (uart', flash')
    ∧ uart' = uart_tx uart (PROTOCOL_CMD_WRITE_DATA_RESPONSE_ERR :: rest)
    ∧ new_ops flash flash'
      = stride_write packet (payload_word packet 0) 3
          <$> seqZ 0 (Z.of_nat k + 1)
    ∧ (∀ i, 0 ≤ i < Z.of_nat k →
            words flash' !! (payload_word packet 0 + 4 * i)
            = Some (payload_word packet (3 + 6 * i))
            ∧ words flash' !! (payload_word packet 0 + 4 * i + 2)
              = Some (payload_word packet (3 + 6 * i + 3)))
    ∧ (∀ a, a < payload_word packet 0
            ∨ payload_word packet 0 + 4 * Z.of_nat k ≤ a →
            words flash' !! a = words flash !! a).
Proof.
  intros HD Hne Hsize Hbyte Hmax Hgood Hp Hbad Hfuel.
  pose proof (payload_word_range packet 0) as Hrange.
  destruct (write_strides packet k (mkStride (payload_word packet 0) 3 1 flash)
              (fuel - k)%nat)
    as (flash1 & Hloop & Hworn & Hissued & Hwritten & Hother);
    cbn [st_address st_index st_flashRes st_flash]; try done; try lia.
  cbn [st_address st_index st_flashRes st_flash] in *.
  replace (k + (fuel - k))%nat with fuel in Hloop by lia.
  set (st := mkStride (payload_word packet 0 + 4 * Z.of_nat k)
               (3 + 6 * Z.of_nat k) 1 flash1) in *.
  set (flash' := mkFlash (words flash1) (worn flash1)
                   (issued flash1
                    ++ [stride_write packet (payload_word packet 0) 3
                          (Z.of_nat k)])).
  assert (Hbody : write_body packet st
                  = mkStride (to_uint32 (st_address st + 4))
                             (to_uint8 (st_index st + 6)) 0 flash').
  { rewrite write_body_writes by done. cbn zeta.
    unfold FlashWriteDWORDAddress. subst st. simpl.
    by rewrite decide_True by (by rewrite Hworn). }
  assert (Hend : while (fuel - k) (write_cond packet) (write_body packet) st
                 = Some (mkStride (to_uint32 (st_address st + 4))
                                  (to_uint8 (st_index st + 6)) 0 flash')).
  { destruct (fuel - k)%nat as [| f] eqn:Hf; [lia |]. simpl.
    assert (Hc : write_cond packet st = true).
    { unfold write_cond. subst st. simpl. lia. }
    rewrite Hc, Hbody.
    destruct f; simpl; unfold write_cond; simpl; by rewrite andb_false_r. }
  rewrite Hend in Hloop.
  destruct (ProtocolSendPacket_null uart PROTOCOL_CMD_WRITE_DATA_RESPONSE_ERR HD)
    as [rest Hsend].
  exists (uart_tx uart (PROTOCOL_CMD_WRITE_DATA_RESPONSE_ERR :: rest)), flash', rest.
  split_and!; try done.
  - unfold ProtocolFlashWrite.
    change (word24 (data packet 0) (data packet 1) (data packet 2))
      with (payload_word packet 0).
    rewrite (proj2 (Z.eqb_neq _ _) Hne). simpl. rewrite Hloop. simpl.
    by rewrite Hsend.
  - unfold new_ops, flash'. simpl. rewrite Hissued, <- app_assoc, drop_app_length.
    replace (Z.of_nat k + 1) with (Z.of_nat (S k)) by lia.
    rewrite seqZ_S, fmap_app. simpl. by rewrite Z.add_0_l.
Qed.

End FlashExtras.

(** Witness for [erase_all_keeps_bootloader_words]: blocks of 2048
    addresses, the bootloader from 2048 to 6144. *)
Lemma erase_all_keeps_bootloader_words_witness :
  ∃ flash',
    @ProtocolFlashErase example_header 100 example_flash = Some flash'
    ∧ ∀ a, 2048 ≤ a < 6144 → words flash' !! a = words example_flash !! a.
Proof.
  apply (@erase_all_keeps_bootloader_words example_header 100 example_flash).
  - reflexivity.
  - discriminate.
  - reflexivity.
  - reflexivity.
  - reflexivity.
  - vm_compute. lia.
Defined.

(** Witness for [erase_all_blanks_the_rest]. *)
Lemma erase_all_blanks_the_rest_witness :
  ∃ flash',
    @ProtocolFlashErase example_header 100 example_flash = Some flash'
    ∧ ∀ a, 0 ≤ a ≤ 174078 → ¬ (2048 ≤ a < 6144) → a ≠ 0 → a ≠ 2 →
           words flash' !! a = None.
Proof.
  apply (@erase_all_blanks_the_rest example_header 100 example_flash).
  - reflexivity.
  - discriminate.
  - reflexivity.
  - reflexivity.
  - reflexivity.
  - reflexivity.
  - vm_compute. lia.
Defined.

(** Witness for [write_request_is_answered]: the scenario. *)
Lemma write_request_is_answered_witness :
  ∃ uart' flash' answer,
    @ProtocolFlashWrite example_header 100 example_uart example_flash
      scenario_packet = Some (uart', flash')
    ∧ uart' = uart_tx example_uart [answer; 3; Z.lxor answer 3]
    ∧ sent_bytes example_uart uart' = [answer; 3; Z.lxor answer 3]
    ∧ (answer = 4 ∨ answer = 5)
    ∧ worn flash' = worn example_flash.
Proof.
  apply (@write_request_is_answered example_header 100 example_uart
           example_flash scenario_packet).
  - reflexivity.
  - unfold is_byte. simpl. lia.
  - unfold is_byte. simpl. lia.
  - reflexivity.
  - discriminate.
  - reflexivity.
  - simpl. lia.
  - simpl. lia.
  - vm_compute. lia.
Defined.

(** Witness for [write_request_spares_bootloader]: the scenario. *)
Lemma write_request_spares_bootloader_witness :
  ∃ uart' flash',
    @ProtocolFlashWrite example_header 100 example_uart example_flash
      scenario_packet = Some (uart', flash')
    ∧ ∀ a, 2048 + 2 ≤ a < 6144 → words flash' !! a = words example_flash !! a.
Proof.
  apply (@write_request_spares_bootloader example_header 100 example_uart
           example_flash scenario_packet).
  - simpl. lia.
  - reflexivity.
  - discriminate.
  - reflexivity.
  - reflexivity.
  - reflexivity.
  - simpl. lia.
  - simpl. lia.
  - vm_compute. lia.
Defined.

(** Witness for [write_request_stores_payload]: one stride for address
    0x2000; the words written are 0xAABBCC and 0xDDEEFF. *)
Lemma write_request_stores_payload_witness :
  ∃ uart' flash' rest,
    @ProtocolFlashWrite example_header 100 example_uart example_flash
      stride_packet = Some (uart', flash')
    ∧ uart' = uart_tx example_uart (4 :: rest)
    ∧ new_ops example_flash flash' = [WriteDWORD 8192 11189196 14544639]
    ∧ (∀ i, 0 ≤ i < 1 →
            words flash' !! (8192 + 4 * i)
            = Some (payload_word stride_packet (3 + 6 * i))
            ∧ words flash' !! (8192 + 4 * i + 2)
              = Some (payload_word stride_packet (3 + 6 * i + 3)))
    ∧ (∀ a, a < 8192 ∨ 8192 + 4 * 1 ≤ a →
            words flash' !! a = words example_flash !! a).
Proof.
  apply (@write_request_stores_payload example_header 100 example_uart
           example_flash stride_packet 1).
  - simpl. lia.
  - discriminate.
  - reflexivity.
  - simpl. lia.
  - reflexivity.
  - intros i Hi. replace i with 0 by lia. split; [reflexivity | set_solver].
  - lia.
Defined.

(** Witness for [write_request_stops_at_first_failure]: two strides for
    address 0x2000 on a flash whose write at 0x2004 fails. *)
Lemma write_request_stops_at_first_failure_witness :
  ∃ uart' flash' rest,
    @ProtocolFlashWrite example_header 100 example_uart failing_flash
      two_stride_packet = Some (uart', flash')
    ∧ uart' = uart_tx example_uart (5 :: rest)
    ∧ new_ops failing_flash flash'
      = [WriteDWORD 8192 11189196 14544639; WriteDWORD 8196 66051 263430]
    ∧ (∀ i, 0 ≤ i < 1 →
            words flash' !! (8192 + 4 * i)
            = Some (payload_word two_stride_packet (3 + 6 * i))
            ∧ words flash' !! (8192 + 4 * i + 2)
              = Some (payload_word two_stride_packet (3 + 6 * i + 3)))
    ∧ (∀ a, a < 8192 ∨ 8192 + 4 * 1 ≤ a →
            words flash' !! a = words failing_flash !! a).
Proof.
  apply (@write_request_stops_at_first_failure example_header 100 example_uart
           failing_flash two_stride_packet 1).
  - simpl. lia.
  - discriminate.
  - simpl. lia.
  - simpl. lia.
  - reflexivity.
  - intros i Hi. replace i with 0 by lia.
    split; [reflexivity |].
    change (payload_word two_stride_packet 0 + 4 * 0) with 8192.
    simpl. apply not_elem_of_singleton. lia.
  - reflexivity.
  - change (payload_word two_stride_packet 0 + 4 * Z.of_nat 1) with 8196.
    simpl. set_solver.
  - lia.
Defined.

(** ** The receive queue between resets *)

Section QueueExtras.
Context `{Header}.

Lemma cleared_push uart q p :
  represents uart q → rxQueueSize uart < UART_RX_QUEUE_SIZE →
  rx_has_error p = false → cleared uart → cleared (UARTReadByte uart p).
Proof.
  intros [Hlen Hsz Hfit Hr Hw Hsync Hbytes] Hroom Herr Hclean.
  unfold UARTReadByte. fold (rx_has_error p). rewrite Herr.
  destruct (Z.eqb_spec (rxQueueSize uart) (UART_RX_QUEUE_SIZE + 1)); [lia |].
  cbn [negb andb].
  set (cursor := if rxQueueWriteCursor uart =? UART_RX_QUEUE_SIZE then 0
                 else rxQueueWriteCursor uart).
  assert (Hcursor : cursor = (rxQueueReadCursor uart + rxQueueSize uart)
                             `mod` UART_RX_QUEUE_SIZE).
  { rewrite <- Hsync. unfold cursor.
    destruct (Z.eqb_spec (rxQueueWriteCursor uart) UART_RX_QUEUE_SIZE) as [-> | Hne].
    - by rewrite Z_mod_same_full.
    - rewrite Z.mod_small; [done | lia]. }
  intros i Hi Hout. simpl in *.
  assert (Hne : cursor ≠ i).
  { rewrite Hcursor. intros <-. apply (Hout (rxQueueSize uart)); [lia | done]. }
  rewrite arr_get_set_ne; [| | lia | done].
  - apply Hclean; [done |]. intros j Hj. apply Hout. lia.
  - rewrite Hcursor. apply Z.mod_pos_bound. lia.
Qed.

Lemma cleared_pop uart q :
  represents uart q → 0 < rxQueueSize uart →
  cleared uart → cleared (UARTGetNextByte uart).2.
Proof.
  intros [Hlen Hsz Hfit Hr Hw Hsync Hbytes] Hsome Hclean.
  unfold UARTGetNextByte. cbn [snd].
  rewrite (proj2 (Z.ltb_lt _ _) Hsome).
  intros i Hi Hout. simpl in *.
  destruct (decide (i = rxQueueReadCursor uart)) as [-> | Hne].
  { apply arr_get_set_eq. lia. }
  rewrite arr_get_set_ne; [| lia | lia | done].
  apply Hclean; [done |]. intros j Hj.
  destruct (decide (j = 0)) as [-> | Hj0].
  { rewrite Z.add_0_r, Z.mod_small; [done | lia]. }
  intros Heq. apply (Hout (j - 1)); [lia |]. rewrite Heq.
  destruct (Z.leb_spec UART_RX_QUEUE_SIZE (rxQueueReadCursor uart + 1)).
  - replace (rxQueueReadCursor uart + j)
      with (0 + (j - 1) + 1 * UART_RX_QUEUE_SIZE) by lia.
    by rewrite Z_mod_plus_full.
  - f_equal. lia.
Qed.

(** X21. Every byte taken from the receive queue is wiped: over a run of
    pushes and pops that stores no byte into a full queue and takes none
    from an empty one, a queue whose slots outside the unread bytes are
    zero stays so. *)
Theorem taken_bytes_are_wiped (ops : list QueueOp) :
  ∀ (uart : UART_t) (q : list Z),
    represents uart q → cleared uart → disciplined ops uart = true →
    cleared (run_ops ops uart).1.
Proof.
  induction ops as [| [p |] ops IH]; intros uart q Hrep Hclean Hd;
    cbn [run_ops disciplined] in *.
  - done.
  - apply andb_prop in Hd as [Hroom Hd].
    destruct (rx_has_error p) eqn:Herr.
    + rewrite push_dropped in * by done. by apply (IH uart q).
    + simpl in Hroom. apply Z.ltb_lt in Hroom.
      apply (IH _ (q ++ [to_uint8 (rx_uxrxreg p)])); [| | done].
      * by apply represents_push.
      * by apply (cleared_push uart q).
  - apply andb_prop in Hd as [Hsome Hd]. apply Z.ltb_lt in Hsome.
    destruct q as [| b q].
    { destruct Hrep as [_ Hsz _ _ _ _ _]. simpl in Hsz. lia. }
    destruct (represents_pop uart b q Hrep) as [_ Hrep'].
    pose proof (cleared_pop uart (b :: q) Hrep Hsome Hclean) as Hclean'.
    destruct (UARTGetNextByte uart) as [byte uart']. simpl in *.
    specialize (IH uart' q Hrep' Hclean' Hd).
    by destruct (run_ops ops uart').
Qed.

(** X22. [UARTResetRxQueue] makes the queue empty whatever its size and
    cursors were, without touching the slots: after it, a run that
    stores no byte into a full queue and takes none from an empty one
    hands out the bytes received since the reset, oldest first. *)
Theorem reset_restores_fifo (ops : list QueueOp) (uart : UART_t) :
  1 ≤ UART_RX_QUEUE_SIZE →
  Z.of_nat (length (rxQueue uart)) = UART_RX_QUEUE_SIZE →
  disciplined ops (UARTResetRxQueue uart) = true →
  rxQueue (UARTResetRxQueue uart) = rxQueue uart
  ∧ represents (run_ops ops (UARTResetRxQueue uart)).1 (fifo_ops ops []).1
  ∧ (run_ops ops (UARTResetRxQueue uart)).2 = (fifo_ops ops []).2.
Proof.
  intros Hc Hlen Hd. split; [done |].
  apply fifo_run; [| done]. by apply represents_reset.
Qed.

End QueueExtras.

(** Witness for [taken_bytes_are_wiped]: three bytes stored and taken,
    a hundred times over. *)
Lemma taken_bytes_are_wiped_witness :
  let ops := mjoin (replicate 100
               [Push (rx_ok 1); Push (rx_ok 2); Push (rx_ok 3); Pop; Pop; Pop]) in
  cleared (H := example_header) (@run_ops example_header ops example_uart).1.
Proof.
  intros ops.
  apply (@taken_bytes_are_wiped example_header ops example_uart []).
  - apply (@represents_reset example_header); simpl; [lia | done].
  - intros i Hi _. unfold arr_get.
    change (rxQueue example_uart) with (replicate 255 0).
    change (@UART_RX_QUEUE_SIZE example_header) with 255 in Hi.
    rewrite lookup_replicate_2 by lia. done.
  - vm_compute. reflexivity.
Defined.

(** Witness for [reset_restores_fifo]: a transport out of step, reset,
    then two bytes stored and taken. *)
Lemma reset_restores_fifo_witness :
  let ops := [Push (rx_ok 1); Push (rx_ok 2); Pop; Pop] in
  rxQueue (UARTResetRxQueue stale_uart) = rxQueue stale_uart
  ∧ represents (H := example_header)
      (@run_ops example_header ops (UARTResetRxQueue stale_uart)).1 []
  ∧ (@run_ops example_header ops (UARTResetRxQueue stale_uart)).2 = [1; 2].
Proof.
  intros ops.
  apply (@reset_restores_fifo example_header ops stale_uart).
  - simpl. lia.
  - reflexivity.
  - vm_compute. reflexivity.
Defined.

(** ** The serial number *)

Section SerialExtras.
Context `{Header}.

Lemma serial_number_value eeprom :
  serial_number eeprom
  = 256 * EEPROMReadByte eeprom CONFIG_SN_MSB
    + EEPROMReadByte eeprom CONFIG_SN_LSB.
Proof.
  unfold serial_number.
  pose proof (to_uint8_range (eeprom CONFIG_SN_MSB)) as Hm.
  pose proof (to_uint8_range (eeprom CONFIG_SN_LSB)) as Hl.
  unfold EEPROMReadByte.
  set (m := to_uint8 (eeprom CONFIG_SN_MSB)) in *.
  set (l := to_uint8 (eeprom CONFIG_SN_LSB)) in *.
  change 255 with (Z.ones 8). rewrite Z.land_ones by lia.
  change (2 ^ 8) with 256. rewrite (Z.mod_small l 256) by lia.
  assert (Hdisjoint : Z.land (Z.shiftl m 8) l = 0).
  { apply Z.bits_inj'. intros n Hn. rewrite Z.land_spec, Z.bits_0.
    destruct (decide (n < 8)) as [Hlow | Hhigh].
    - by rewrite Z.shiftl_spec_low.
    - rewrite (Z.bits_above_log2 l n), andb_false_r; [done | lia |].
      destruct (decide (l = 0)) as [-> | Hpos]; [simpl; lia |].
      apply Z.log2_lt_pow2; [lia |].
      apply Z.lt_le_trans with (2 ^ 8); [simpl; lia |].
      apply Z.pow_le_mono_r; lia. }
  pose proof (Z.add_lor_land (Z.shiftl m 8) l) as Hadd.
  rewrite Hdisjoint, Z.add_0_r in Hadd. rewrite Hadd.
  rewrite Z.shiftl_mul_pow2 by lia. change (2 ^ 8) with 256.
  unfold to_uint16. rewrite Z.mod_small; lia.
Qed.

(** X23. With the payload at index 2 and two distinct cells,
    [ProtocolWriteSerialNumber] answers with exactly one frame of three
    bytes: the opcode, the length 3 and the XOR of the two. When it
    finds the serial number zero the opcode is WRITE_SN_RESPONSE_OK and
    the serial number reads afterwards as 256 times the first payload
    byte plus the second; otherwise the opcode is WRITE_SN_RESPONSE_ERR
    and the EEPROM is left as it is. No cell but the two of the serial
    number ever changes. *)
Theorem accepted_serial_number_reads_back (uart : UART_t) (eeprom : EEPROM)
    (packet : ProtocolPacket_t) :
  PROTOCOL_DATA_INDEX_BEGIN = 2 → CONFIG_SN_MSB ≠ CONFIG_SN_LSB →
  is_byte PROTOCOL_CMD_WRITE_SN_RESPONSE_OK →
  is_byte PROTOCOL_CMD_WRITE_SN_RESPONSE_ERR →
  ∃ uart' eeprom' answer,
    ProtocolWriteSerialNumber uart eeprom packet = Some (uart', eeprom')
    ∧ uart' = uart_tx uart [answer; 3; Z.lxor answer 3]
    ∧ sent_bytes uart uart' = [answer; 3; Z.lxor answer 3]
    ∧ (serial_number eeprom = 0 →
       answer = PROTOCOL_CMD_WRITE_SN_RESPONSE_OK
       ∧ serial_number eeprom'
         = 256 * to_uint8 (data packet 0) + to_uint8 (data packet 1))
    ∧ (serial_number eeprom ≠ 0 →
       answer = PROTOCOL_CMD_WRITE_SN_RESPONSE_ERR ∧ eeprom' = eeprom)
    ∧ (∀ cell, cell ≠ CONFIG_SN_MSB → cell ≠ CONFIG_SN_LSB →
               EEPROMReadByte eeprom' cell = EEPROMReadByte eeprom cell).
Proof.
  intros HD Hcells Hok Herr. unfold ProtocolWriteSerialNumber.
  destruct (Z.eqb_spec (serial_number eeprom) 0) as [Hzero | Hset].
  - rewrite (ProtocolSendPacket_null_frame uart _ HD Hok). simpl.
    eexists _, _, _. split; [reflexivity |]. split; [reflexivity |].
    split; [apply sent_bytes_tx |]. split_and!.
    + intros _. split; [done |]. rewrite serial_number_value.
      rewrite EEPROM_read_other by done.
      by rewrite !EEPROM_read_written.
    + intros Hne. done.
    + intros cell Hm Hl. by rewrite !EEPROM_read_other.
  - rewrite (ProtocolSendPacket_null_frame uart _ HD Herr). simpl.
    eexists _, _, _. split; [reflexivity |]. split; [reflexivity |].
    split; [apply sent_bytes_tx |]. split_and!; done.
Qed.

End SerialExtras.

(** Witness for [accepted_serial_number_reads_back]: 0x1234. *)
Lemma accepted_serial_number_reads_back_witness :
  ∃ uart' eeprom' answer,
    @ProtocolWriteSerialNumber example_header example_uart blank_eeprom
      first_sn_packet = Some (uart', eeprom')
    ∧ uart' = uart_tx example_uart [answer; 3; Z.lxor answer 3]
    ∧ sent_bytes example_uart uart' = [answer; 3; Z.lxor answer 3]
    ∧ (@serial_number example_header blank_eeprom = 0 →
       answer = 7
       ∧ @serial_number example_header eeprom' = 256 * 18 + 52)
    ∧ (@serial_number example_header blank_eeprom ≠ 0 →
       answer = 8 ∧ eeprom' = blank_eeprom)
    ∧ (∀ cell, cell ≠ 0 → cell ≠ 1 →
               EEPROMReadByte eeprom' cell = EEPROMReadByte blank_eeprom cell).
Proof.
  apply (@accepted_serial_number_reads_back example_header example_uart
           blank_eeprom first_sn_packet).
  - reflexivity.
  - discriminate.
  - unfold is_byte. simpl. lia.
  - unfold is_byte. simpl. lia.
Defined.
